(** * spannerexample: a model of [main.go]

    The program provisions a Cloud Spanner database, seeds two tables and
    reads one of them back.  Everything it does goes through client
    libraries, so the model has two layers:

    - the code of [main.go], written in a small state-and-exit monad, one
      definition per Go function, in the order of the source;
    - the libraries it calls ([regexp], the Spanner clients, [uuid], [zap]),
      which appear as an environment [Env] whose answers are arbitrary,
      together with an in-memory stand-in for the data plane that is used
      where a statement needs to know what a write followed by a read
      returns. *)

From Stdlib Require Import Ascii String.
From stdpp Require Import gmap strings list fin_maps.

(** * Strings *)

Module Str.

(** [strip_prefix p s] removes the literal [p] from the front of [s]. *)
Fixpoint strip_prefix (p s : string) : option string :=
  match p with
  | EmptyString => Some s
  | String a p' =>
      match s with
      | EmptyString => None
      | String b s' => if Ascii.eqb a b then strip_prefix p' s' else None
      end
  end.

(** [contains sub s]: [sub] occurs somewhere in [s]. *)
Fixpoint contains (sub s : string) : bool :=
  match strip_prefix sub s with
  | Some _ => true
  | None =>
      match s with
      | EmptyString => false
      | String _ s' => contains sub s'
      end
  end.

Definition newline : ascii := "010"%char.

(** What the regular expression [.] accepts: any character but a line
    feed (Go's [regexp] without the [s] flag). *)
Definition dot (c : ascii) : bool := negb (Ascii.eqb c newline).

Fixpoint no_newline (s : string) : bool :=
  match s with
  | EmptyString => true
  | String c s' => dot c && no_newline s'
  end.

End Str.

(** * The [regexp] package, as far as the program uses it *)

Module Regexp.

(** The fragment of the syntax that the pattern of [createDatabase] is
    written in.  Groups are numbered by the order in which they close,
    which is the order in which they open as long as none is nested. *)
Inductive regex : Type :=
| Bot                        (* ^   beginning of text *)
| Eot                        (* $   end of text *)
| Lit (l : string)           (* literal text *)
| DotStar                    (* .*  greedy *)
| Group (r : regex)          (* ( r ) *)
| Cat (r1 r2 : regex).

(** Greedy repetition of [.]: consume one more character when possible
    and come back to the shorter match only when the rest fails. *)
Fixpoint dotstar {A : Type} (pos : nat) (s : string)
    (k : nat -> string -> option A) : option A :=
  match s with
  | EmptyString => k pos s
  | String c s' =>
      if Str.dot c then
        match dotstar (S pos) s' k with
        | Some r => Some r
        | None => k pos s
        end
      else k pos s
  end.

(** Backtracking matcher with the leftmost-first preference order.
    [pos] is the offset of [s] in the whole text, [caps] the groups
    closed so far, [k] the rest of the pattern. *)
Fixpoint rmatch {A : Type} (r : regex) (pos : nat) (s : string)
    (caps : list string)
    (k : nat -> string -> list string -> option A) : option A :=
  match r with
  | Bot => if Nat.eqb pos 0 then k pos s caps else None
  | Eot => match s with EmptyString => k pos s caps | _ => None end
  | Lit l =>
      match Str.strip_prefix l s with
      | Some s' => k (pos + String.length l) s' caps
      | None => None
      end
  | DotStar => dotstar pos s (fun p s' => k p s' caps)
  | Group r' =>
      rmatch r' pos s caps
        (fun p s' caps' => k p s' (caps' ++ [substring 0 (p - pos) s]))
  | Cat r1 r2 =>
      rmatch r1 pos s caps (fun p s' caps' => rmatch r2 p s' caps' k)
  end.

(** One attempt at offset [pos]: the whole match followed by the groups. *)
Definition match_here (r : regex) (pos : nat) (s : string)
    : option (list string) :=
  rmatch r pos s []
    (fun p _ caps => Some (substring 0 (p - pos) s :: caps)).

(** The search of [FindStringSubmatch]: the leftmost offset at which the
    pattern matches. *)
Fixpoint find_from (r : regex) (pos : nat) (s : string)
    : option (list string) :=
  match match_here r pos s with
  | Some m => Some m
  | None =>
      match s with
      | EmptyString => None
      | String _ s' => find_from r (S pos) s'
      end
  end.

(** The method [FindStringSubmatch]; Go's [nil] slice is the empty list. *)
Definition FindStringSubmatch (r : regex) (s : string) : list string :=
  match find_from r 0 s with
  | Some m => m
  | None => []
  end.

End Regexp.

(** The pattern compiled in [createDatabase], as the source spells it, and
    its syntax tree: anchor, greedy group, literal, greedy group, anchor. *)
Definition database_pattern_text : string := "^(.*)/databases/(.*)$".

Definition separator : string := "/databases/".

Definition database_pattern : Regexp.regex :=
  Regexp.Cat Regexp.Bot
    (Regexp.Cat (Regexp.Group Regexp.DotStar)
       (Regexp.Cat (Regexp.Lit separator)
          (Regexp.Cat (Regexp.Group Regexp.DotStar) Regexp.Eot))).

(** Lines 58-61 of [createDatabase]: the match and the guard on it.  The
    result is the pair [(matches[1], matches[2])] that the request is built
    from, or [None] where the function returns its error. *)
Definition identifier_parser (db : string) : option (string * string) :=
  let matches := Regexp.FindStringSubmatch database_pattern db in
  if bool_decide (matches = []) || negb (Nat.eqb (length matches) 3)
  then None
  else Some (nth 1 matches EmptyString, nth 2 matches EmptyString).

(** * Errors and status codes *)

(** [google.golang.org/grpc/codes]. *)
Inductive Code : Type :=
| OK | Canceled | Unknown | InvalidArgument | DeadlineExceeded | NotFound
| AlreadyExists | PermissionDenied | ResourceExhausted | FailedPrecondition
| Aborted | OutOfRange | Unimplemented | Internal | Unavailable | DataLoss
| Unauthenticated.

Global Instance Code_eq_dec : EqDecision Code.
Proof. solve_decision. Defined.

(** The Go [error] values the program can meet: the sentinel
    [iterator.Done], an error made by [fmt.Errorf], and an error that
    carries a status.  A [nil] error is [None] of [option error]. *)
Inductive error : Type :=
| IteratorDone
| Errorf (msg : string)
| StatusErr (code : Code) (msg : string).

Global Instance error_eq_dec : EqDecision error.
Proof. solve_decision. Defined.

(** [spanner.ErrCode] on a non-nil error: the status code when the error
    has one, [Unknown] otherwise. *)
Definition ErrCode (err : error) : Code :=
  match err with
  | StatusErr c _ => c
  | IteratorDone | Errorf _ => Unknown
  end.

(** A Go result pair [(value, error)] of which exactly one side is set. *)
Inductive res (A : Type) : Type :=
| Ok (a : A)
| Fail (e : error).
Arguments Ok {A} a.
Arguments Fail {A} e.

(** * Data of the program *)

Record Album : Type := mkAlbum {
  SingerId : string;
  AlbumId : string;
  AlbumTitle : string
}.

(** [spanner.Mutation] as [spanner.InsertOrUpdate] builds it; every value
    the program writes is a string. *)
Record Mutation : Type := InsertOrUpdate {
  mut_table : string;
  mut_columns : list string;
  mut_values : list string
}.

Record CreateDatabaseRequest : Type := mkCreateDatabaseRequest {
  Parent : string;
  CreateStatement : string;
  ExtraStatements : list string
}.

(** A row of a result set: one value per column, [None] for NULL. *)
Definition Row : Type := list (option string).

(** What successive calls of [Next] give; past the end it is
    [iterator.Done]. *)
Definition RowIterator : Type := list (res Row).

(** The two handles of [Client]. *)
Inductive DatabaseAdminClient : Type := AdminHandle.
Inductive SpannerClient : Type := DataHandle (db : string).

Record Client : Type := mkClient {
  admin : DatabaseAdminClient;
  client : SpannerClient
}.

(** [zap] fields. *)
Inductive Field : Type :=
| zap_String (key val : string)
| zap_Int (key : string) (val : nat)
| zap_Error (err : error).

(** * The world outside the program *)

(** Contents of the two tables.  [Singers] maps the key to first and last
    name, [Albums] maps [(SingerId, AlbumId)] to the nullable title. *)
Record Store : Type := mkStore {
  singers : gmap string (string * string);
  albums : gmap (string * string) (option string)
}.

(** Every call that leaves the program, in program order. *)
Inductive event : Type :=
| EvNewDatabaseAdminClient
| EvNewClient (db : string)
| EvCreateDatabase (req : CreateDatabaseRequest)
| EvWait
| EvNewRandom
| EvApply (ms : list Mutation)
| EvQuery (sql : string)
| EvNext
| EvColumns
| EvStop
| EvAdminClose
| EvClientClose
| EvInfo (msg : string) (fields : list Field)
| EvFatal (msg : string) (fields : list Field)
| EvSync.

(** The answers of the libraries.  Nothing is assumed about them: each
    field is what the corresponding call returns. *)
Record Env : Type := mkEnv {
  new_admin_client : option error;        (* database.NewDatabaseAdminClient *)
  new_client : string -> option error;    (* spanner.NewClient *)
  create_database : CreateDatabaseRequest -> option error;
  wait : option error;                    (* op.Wait *)
  new_random : nat -> res string;         (* n-th uuid.NewRandom, as text *)
  data_apply : Store -> list Mutation -> res Store;   (* client.Apply *)
  data_query : Store -> string -> RowIterator         (* Single().Query *)
}.

Record State : Type := mkState {
  store : Store;
  rand_calls : nat;
  trace : list event
}.

Definition initial (db : Store) : State :=
  {| store := db; rand_calls := 0; trace := [] |}.

(** * The monad: state, environment, and [os.Exit] *)

Inductive Result (A : Type) : Type :=
| Ret (a : A)
| Exit (code : nat).
Arguments Ret {A} a.
Arguments Exit {A} code.

Definition M (A : Type) : Type := Env -> State -> Result A * State.

Definition ret {A} (a : A) : M A := fun _ st => (Ret a, st).

Definition bind {A B} (m : M A) (f : A -> M B) : M B :=
  fun env st =>
    match m env st with
    | (Ret a, st') => f a env st'
    | (Exit c, st') => (Exit c, st')
    end.

Declare Scope go_scope.
Delimit Scope go_scope with go.
Notation "x <- m ;; k" := (bind m (fun x => k))
  (at level 100, m at next level, right associativity) : go_scope.
Notation "m ;; k" := (bind m (fun _ => k))
  (at level 100, right associativity) : go_scope.
Local Open Scope go_scope.

Definition log_event (e : event) (st : State) : State :=
  {| store := store st; rand_calls := rand_calls st;
     trace := trace st ++ [e] |}.

Definition emit (e : event) : M unit :=
  fun _ st => (Ret tt, log_event e st).

(** [defer d] around a function body: [d] runs when the body returns, and
    does not run when the process exits inside the body. *)
Definition defer {A} (d : M unit) (body : M A) : M A :=
  a <- body ;; d ;; ret a.

(** ** Library calls *)

Definition NewDatabaseAdminClient : M (res DatabaseAdminClient) :=
  emit EvNewDatabaseAdminClient ;;
  fun env st =>
    (Ret match new_admin_client env with
         | Some e => Fail e
         | None => Ok AdminHandle
         end, st).

Definition NewClient (db : string) : M (res SpannerClient) :=
  emit (EvNewClient db) ;;
  fun env st =>
    (Ret match new_client env db with
         | Some e => Fail e
         | None => Ok (DataHandle db)
         end, st).

Definition admin_CreateDatabase (c : DatabaseAdminClient)
    (req : CreateDatabaseRequest) : M (option error) :=
  emit (EvCreateDatabase req) ;;
  fun env st => (Ret (create_database env req), st).

Definition op_Wait : M (option error) :=
  emit EvWait ;; fun env st => (Ret (wait env), st).

Definition uuid_NewRandom : M (res string) :=
  emit EvNewRandom ;;
  fun env st =>
    (Ret (new_random env (rand_calls st)),
     {| store := store st; rand_calls := S (rand_calls st);
        trace := trace st |}).

(** [client.Apply]: one transaction; on failure nothing is written. *)
Definition client_Apply (c : SpannerClient) (ms : list Mutation)
    : M (option error) :=
  emit (EvApply ms) ;;
  fun env st =>
    match data_apply env (store st) ms with
    | Ok db' =>
        (Ret None, {| store := db'; rand_calls := rand_calls st;
                      trace := trace st |})
    | Fail e => (Ret (Some e), st)
    end.

Definition client_Single_Query (c : SpannerClient) (sql : string)
    : M RowIterator :=
  emit (EvQuery sql) ;;
  fun env st => (Ret (data_query env (store st) sql), st).

(** [iter.Next] on what is left of the iterator. *)
Definition iter_Next (iter : RowIterator) : M (res Row) :=
  emit EvNext ;;
  ret match iter with
      | [] => Fail IteratorDone
      | r :: _ => r
      end.

Definition iter_Stop : M unit := emit EvStop.

(** [row.Columns] into three [string] variables: the row must have three
    columns, none of them NULL. *)
Definition decode3 (row : Row) : res (string * string * string) :=
  match row with
  | [Some a; Some b; Some c] => Ok (a, b, c)
  | _ => Fail (StatusErr InvalidArgument "cannot decode row")
  end.

Definition row_Columns (row : Row) : M (res (string * string * string)) :=
  emit EvColumns ;; ret (decode3 row).

Definition logger_Info (msg : string) (fields : list Field) : M unit :=
  emit (EvInfo msg fields).

(** [logger.Fatal] writes the entry and calls [os.Exit(1)]. *)
Definition logger_Fatal {A} (msg : string) (fields : list Field) : M A :=
  emit (EvFatal msg fields) ;; fun _ st => (Exit 1, st).

Definition logger_Sync : M unit := emit EvSync.

(** * The program *)

(** The method [Close] of [Client]: two deferred calls, so the data client
    is closed
    first and the admin client second. *)
Definition Client_Close (c : Client) : M unit :=
  defer (emit EvAdminClose) (defer (emit EvClientClose) (ret tt)).

Definition createClients (db : string) : M (res Client) :=
  r <- NewDatabaseAdminClient ;;
  match r with
  | Fail err => ret (Fail err)
  | Ok adminClient =>
      r <- NewClient db ;;
      match r with
      | Fail err => ret (Fail err)
      | Ok dataClient =>
          ret (Ok {| admin := adminClient; client := dataClient |})
      end
  end.

Definition ddl_Singers : string :=
"CREATE TABLE Singers (
         SingerId   STRING(1024) NOT NULL,
         FirstName  STRING(1024),
         LastName   STRING(1024),
         SingerInfo BYTES(MAX)
        ) PRIMARY KEY (SingerId)".

Definition ddl_Albums : string :=
"CREATE TABLE Albums (
         SingerId     STRING(1024) NOT NULL,
         AlbumId      STRING(1024) NOT NULL,
         AlbumTitle   STRING(MAX)
        ) PRIMARY KEY (SingerId, AlbumId),
        INTERLEAVE IN PARENT Singers ON DELETE CASCADE".

(** The request built from the two groups of the match. *)
Definition createDatabase_request (matches : list string)
    : CreateDatabaseRequest :=
  {| Parent := nth 1 matches EmptyString;
     CreateStatement :=
       "CREATE DATABASE `" +:+ nth 2 matches EmptyString +:+ "`";
     ExtraStatements := [ddl_Singers; ddl_Albums] |}.

Definition createDatabase (adminClient : DatabaseAdminClient) (db : string)
    : M (option error) :=
  let matches := Regexp.FindStringSubmatch database_pattern db in
  if bool_decide (matches = []) || negb (Nat.eqb (length matches) 3)
  then ret (Some (Errorf ("Invalid database id " +:+ db)))
  else
    err <- admin_CreateDatabase adminClient (createDatabase_request matches) ;;
    match err with
    | Some e => ret (Some e)
    | None =>
        err <- op_Wait ;;
        match err with
        | Some e => ret (Some e)
        | None =>
            logger_Info "Created database" [zap_String "db" db] ;;
            ret None
        end
    end.

Definition singerColumns : list string := ["SingerId"; "FirstName"; "LastName"].
Definition albumColumns : list string := ["SingerId"; "AlbumId"; "AlbumTitle"].

(** [uuids[i]]; the program only reads indices below the length. *)
Definition at_index (uuids : list string) (i : nat) : string :=
  nth i uuids EmptyString.

(** The loop of lines 95-102, with [n] iterations left and counter [i]. *)
Fixpoint insert_uuids (n i : nat) (uuids : list string)
    : M (res (list string)) :=
  match n with
  | 0 => ret (Ok uuids)
  | S n' =>
      r <- uuid_NewRandom ;;
      match r with
      | Fail err => ret (Fail err)
      | Ok u =>
          let uuids := <[i := u]> uuids in
          logger_Info "uuid"
            [zap_Int "index" i; zap_String "UUID" (at_index uuids i)] ;;
          insert_uuids n' (S i) uuids
      end
  end.

Definition insert_m1 (uuids : list string) : list Mutation :=
  [ InsertOrUpdate "Singers" singerColumns
      [at_index uuids 0; "Marc"; "Richards"];
    InsertOrUpdate "Singers" singerColumns
      [at_index uuids 1; "Catalina"; "Smith"];
    InsertOrUpdate "Singers" singerColumns
      [at_index uuids 2; "Alice"; "Trentor"];
    InsertOrUpdate "Singers" singerColumns
      [at_index uuids 3; "Lea"; "Martin"];
    InsertOrUpdate "Singers" singerColumns
      [at_index uuids 4; "David"; "Lomond"] ].

Definition insert_m2 (uuids : list string) : list Mutation :=
  [ InsertOrUpdate "Albums" albumColumns
      [at_index uuids 0; at_index uuids 5; "Total Junk"];
    InsertOrUpdate "Albums" albumColumns
      [at_index uuids 1; at_index uuids 6; "Go, Go, Go"];
    InsertOrUpdate "Albums" albumColumns
      [at_index uuids 0; at_index uuids 7; "Green"];
    InsertOrUpdate "Albums" albumColumns
      [at_index uuids 1; at_index uuids 8; "Forever Hold Your Peace"];
    InsertOrUpdate "Albums" albumColumns
      [at_index uuids 2; at_index uuids 9; "Terrified"] ].

Definition insert (c : SpannerClient) : M (option error) :=
  r <- insert_uuids 10 0 (replicate 10 EmptyString) ;;
  match r with
  | Fail err => ret (Some err)
  | Ok uuids =>
      let m1 := insert_m1 uuids in
      let m2 := insert_m2 uuids in
      err <- client_Apply c m1 ;;
      match err with
      | Some e => ret (Some e)
      | None => client_Apply c m2
      end
  end.

Definition query_sql : string :=
  "SELECT SingerId, AlbumId, AlbumTitle FROM Albums".

(** One turn of the [for] loop of [queryAlbums], given what [Next]
    returned; [continue] is the next turn. *)
Definition queryAlbums_turn (r : res Row) (albums : list Album)
    (continue : list Album -> M (list Album * option error))
    : M (list Album * option error) :=
  match r with
  | Fail err =>
      if bool_decide (err = IteratorDone) then ret (albums, None)
      else ret ([], Some err)
  | Ok row =>
      r <- row_Columns row ;;
      match r with
      | Fail err => ret ([], Some err)
      | Ok (singerID, albumID, albumTitle) =>
          let a := {| SingerId := singerID; AlbumId := albumID;
                      AlbumTitle := albumTitle |} in
          continue (albums ++ [a])
      end
  end.

(** The loop; it ends at the latest when the iterator is used up, where
    [Next] answers [iterator.Done]. *)
Fixpoint queryAlbums_loop (iter : RowIterator) (albums : list Album)
    : M (list Album * option error) :=
  r <- iter_Next iter ;;
  match iter with
  | [] => queryAlbums_turn r albums (fun a => ret (a, None))
  | _ :: iter' => queryAlbums_turn r albums (queryAlbums_loop iter')
  end.

Definition queryAlbums (c : SpannerClient) : M (list Album * option error) :=
  iter <- client_Single_Query c query_sql ;;
  defer iter_Stop (queryAlbums_loop iter []).

(** ** [main], from the last step to the first *)

Definition log_row (a : Album) : M unit :=
  logger_Info "row"
    [zap_String "SingerID" (SingerId a); zap_String "AlbumID" (AlbumId a);
     zap_String "AlbumTitle" (AlbumTitle a)].

Fixpoint log_rows (albums : list Album) : M unit :=
  match albums with
  | [] => ret tt
  | a :: rest => log_row a ;; log_rows rest
  end.

(** Lines 181-192. *)
Definition main_read (db : string) (c : Client) : M unit :=
  r <- queryAlbums (client c) ;;
  let (albums, err) := r in
  match err with
  | Some e => logger_Fatal "query records" [zap_String "db" db; zap_Error e]
  | None => ret tt
  end ;;
  log_rows albums.

(** Lines 176-179, then the read. *)
Definition main_seed (db : string) (c : Client) : M unit :=
  err <- insert (client c) ;;
  match err with
  | Some e => logger_Fatal "insert records" [zap_String "db" db; zap_Error e]
  | None => ret tt
  end ;;
  main_read db c.

(** Lines 168-174, then the seed. *)
Definition main_provision (db : string) (c : Client) : M unit :=
  err <- createDatabase (admin c) db ;;
  match err with
  | Some e =>
      let code := ErrCode e in
      if bool_decide (code <> AlreadyExists)
      then logger_Fatal "Create database" [zap_String "db" db; zap_Error e]
      else ret tt
  | None => ret tt
  end ;;
  main_seed db c.

(** The body of [main] with the literal of line 160 as a parameter.  The
    logger of line 157 is taken to exist: the error of [zap.NewProduction]
    is dropped by the source. *)
Definition main_with (db : string) : M unit :=
  defer logger_Sync
    (r <- createClients db ;;
     match r with
     | Fail err =>
         logger_Fatal "Create client" [zap_String "db" db; zap_Error err]
     | Ok c => main_provision db c
     end).

Definition main_db : string :=
  "projects/create-table-test/instances/test-instance/databases/example-db".

Definition main : M unit := main_with main_db.

(** * An in-memory data plane *)

Module Fake.

(** Modelled from the spec: the Spanner service behind [client.Apply]
    and [Single().Query] is not part of the repository.  The stand-in
    keeps the two tables of the schema; an insert-or-update writes the
    row under its primary key, inserting when absent and overwriting
    when present, a child row needs its parent row (the interleaving
    constraint), a batch is applied in order and wholly or not at all,
    and the query returns every row of [Albums]. *)
Definition apply_one (db : Store) (m : Mutation) : res Store :=
  if bool_decide (mut_table m = "Singers"%string) then
    if bool_decide (mut_columns m = singerColumns) then
      match mut_values m with
      | [sid; first; last] =>
          Ok {| singers := <[sid := (first, last)]> (singers db);
                albums := albums db |}
      | _ => Fail (StatusErr InvalidArgument "values do not fit columns")
      end
    else Fail (StatusErr NotFound "column not found")
  else if bool_decide (mut_table m = "Albums"%string) then
    if bool_decide (mut_columns m = albumColumns) then
      match mut_values m with
      | [sid; aid; title] =>
          match singers db !! sid with
          | Some _ =>
              Ok {| singers := singers db;
                    albums := <[(sid, aid) := Some title]> (albums db) |}
          | None => Fail (StatusErr NotFound "parent row is missing")
          end
      | _ => Fail (StatusErr InvalidArgument "values do not fit columns")
      end
    else Fail (StatusErr NotFound "column not found")
  else Fail (StatusErr NotFound "table not found").

(** Modelled from the spec: a batch of [client.Apply], in order, all or
    nothing. *)
Fixpoint apply (db : Store) (ms : list Mutation) : res Store :=
  match ms with
  | [] => Ok db
  | m :: ms' =>
      match apply_one db m with
      | Ok db' => apply db' ms'
      | Fail e => Fail e
      end
  end.

Definition album_row (kv : string * string * option string) : res Row :=
  let '(sid, aid, title) := kv in Ok [Some sid; Some aid; title].

(** Modelled from the spec: what [Single().Query] delivers for the one
    statement of the program, every row of [Albums], in the order of the
    map. *)
Definition query (db : Store) (sql : string) : RowIterator :=
  if bool_decide (sql = query_sql) then album_row <$> map_to_list (albums db)
  else [Fail (StatusErr InvalidArgument "unknown statement")].

(** Libraries that never fail, on top of the stand-in; [ids] is what the
    random source delivers. *)
Definition env (ids : nat -> string) : Env :=
  {| new_admin_client := None;
     new_client := fun _ => None;
     create_database := fun _ => None;
     wait := None;
     new_random := fun n => Ok (ids n);
     data_apply := apply;
     data_query := query |}.

Definition empty : Store := {| singers := ∅; albums := ∅ |}.

End Fake.

(** * Reading a run *)

Definition run {A} (m : M A) (env : Env) (db : Store) : Result A * State :=
  m env (initial db).

Definition events {A} (r : Result A * State) : list event := trace (snd r).

Definition count (p : event -> bool) (tr : list event) : nat :=
  length (filter (fun e => p e = true) tr).

Definition is_stop (e : event) : bool :=
  match e with EvStop => true | _ => false end.

Definition is_close (e : event) : bool :=
  match e with EvAdminClose | EvClientClose => true | _ => false end.

Definition is_apply (e : event) : bool :=
  match e with EvApply _ => true | _ => false end.

Definition is_new_random (e : event) : bool :=
  match e with EvNewRandom => true | _ => false end.


Definition test_ids (n : nat) : string :=
  String (ascii_of_nat (97 + n)) EmptyString.

(** * The split the pattern computes *)

(** What remains of the pattern once the first group has stopped at [s]:
    the literal, then a second group that has to reach the end. *)
Definition split_here (s : string) : option (string * string) :=
  match Str.strip_prefix separator s with
  | Some rest => if Str.no_newline rest then Some (EmptyString, rest) else None
  | None => None
  end.

(** The first group on [s]: longest alternative first. *)
Fixpoint split_greedy (s : string) : option (string * string) :=
  match s with
  | EmptyString => split_here s
  | String c s' =>
      if Str.dot c then
        match split_greedy s' with
        | Some (p, n) => Some (String c p, n)
        | None => split_here s
        end
      else split_here s
  end.

(** * Vocabulary of the statements *)

(** The events of [tr] are all outside the class [p]. *)
Definition free_of (p : event -> bool) (tr : list event) : Prop :=
  Forall (fun e => p e = false) tr.

(** A computation that only appends events outside [p] to the trace. *)
Definition quiet {A} (p : event -> bool) (m : M A) : Prop :=
  forall env st, exists evs,
    trace (snd (m env st)) = trace st ++ evs /\ free_of p evs.

Definition log_events (evs : list event) (st : State) : State :=
  {| store := store st; rand_calls := rand_calls st;
     trace := trace st ++ evs |}.

(** A row with three non-NULL columns, and the record it decodes to. *)
Definition full_row (t : string * string * string) : res Row :=
  let '(a, b, c) := t in Ok [Some a; Some b; Some c].

Definition album_of (t : string * string * string) : Album :=
  let '(a, b, c) := t in
  {| SingerId := a; AlbumId := b; AlbumTitle := c |}.

(** The events of reading [n] rows: a [Next] and a [Columns] for each. *)
Definition read_events (n : nat) : list event :=
  concat (replicate n [EvNext; EvColumns]).

(** The iterator says [iterator.Done] at its head: it is used up, or its
    next item is the sentinel. *)
Definition at_done (iter : RowIterator) : Prop :=
  iter = [] \/ exists rest, iter = Fail IteratorDone :: rest.

(** What [insert] logs for the identifier at index [j]. *)
Definition uuid_events (ids : nat -> string) (j : nat) : list event :=
  [EvNewRandom; EvInfo "uuid" [zap_Int "index" j; zap_String "UUID" (ids j)]].

Definition is_uuid_log (e : event) : bool :=
  match e with
  | EvInfo msg _ => bool_decide (msg = "uuid"%string)
  | _ => false
  end.

(** The names and titles written into the two batches. *)
Definition singer_names : list (string * string) :=
  [("Marc", "Richards"); ("Catalina", "Smith"); ("Alice", "Trentor");
   ("Lea", "Martin"); ("David", "Lomond")]%string.

Definition album_titles : list string :=
  ["Total Junk"; "Go, Go, Go"; "Green"; "Forever Hold Your Peace";
   "Terrified"]%string.

(** Key and record of a child-row mutation. *)
Definition album_key (m : Mutation) : string * string :=
  (at_index (mut_values m) 0, at_index (mut_values m) 1).

Definition album_of_mutation (m : Mutation) : Album :=
  {| SingerId := at_index (mut_values m) 0;
     AlbumId := at_index (mut_values m) 1;
     AlbumTitle := at_index (mut_values m) 2 |}.

(** A stored child row as key and value, and as the record read back. *)
Definition album_entry (m : Mutation) : string * string * option string :=
  (album_key m, Some (at_index (mut_values m) 2)).

Definition entry_triple (kv : string * string * option string)
    : string * string * string :=
  (kv.1.1, kv.1.2, default EmptyString kv.2).

Definition no_entropy_env : Env :=
  {| new_admin_client := None;
     new_client := fun _ => None;
     create_database := fun _ => None;
     wait := None;
     new_random := fun _ => Fail (Errorf "crypto/rand: no entropy");
     data_apply := Fake.apply;
     data_query := Fake.query |}.

(** Tables left by an earlier run: one singer with one album. *)
Definition earlier_run : Store :=
  {| singers := {[ "s0"%string := ("Old"%string, "Singer"%string) ]};
     albums := {[ ("s0"%string, "a0"%string) := Some "Old Album"%string ]} |}.

(** Environments for the examples: the database exists already; the
    quota is used up; every write fails. *)
Definition already_exists_env : Env :=
  {| new_admin_client := None;
     new_client := fun _ => None;
     create_database :=
       fun _ => Some (StatusErr AlreadyExists "database already exists");
     wait := None;
     new_random := fun n => Ok (test_ids n);
     data_apply := Fake.apply;
     data_query := Fake.query |}.

Definition quota_env : Env :=
  {| new_admin_client := None;
     new_client := fun _ => None;
     create_database :=
       fun _ => Some (StatusErr ResourceExhausted "quota exceeded");
     wait := None;
     new_random := fun n => Ok (test_ids n);
     data_apply := Fake.apply;
     data_query := Fake.query |}.

Definition apply_fails_env : Env :=
  {| new_admin_client := None;
     new_client := fun _ => None;
     create_database := fun _ => None;
     wait := None;
     new_random := fun n => Ok (test_ids n);
     data_apply := fun _ _ => Fail (StatusErr Unavailable "connection lost");
     data_query := Fake.query |}.

(** * Vocabulary of the further properties *)

Definition is_fatal (e : event) : bool :=
  match e with EvFatal _ _ => true | _ => false end.

Definition is_sync (e : event) : bool :=
  match e with EvSync => true | _ => false end.

Definition is_next (e : event) : bool :=
  match e with EvNext => true | _ => false end.

Definition is_query (e : event) : bool :=
  match e with EvQuery _ => true | _ => false end.

Definition is_create_database (e : event) : bool :=
  match e with EvCreateDatabase _ => true | _ => false end.

(** A computation that comes back to its caller: it does not end the
    process. *)
Definition returns {A} (m : M A) : Prop :=
  forall env st, exists a st', m env st = (Ret a, st').

(** A computation that ends the process, if at all, with status 1 and
    right after a fatal log entry. *)
Definition exits_by_fatal {A} (m : M A) : Prop :=
  forall env st c st',
    m env st = (Exit c, st') ->
    c = 1 /\ exists msg fields, last (trace st') = Some (EvFatal msg fields).

(** What [main] runs under its deferred [logger.Sync]. *)
Definition main_body (db : string) : M unit :=
  (r <- createClients db ;;
   match r with
   | Fail err =>
       logger_Fatal "Create client" [zap_String "db" db; zap_Error err]
   | Ok c => main_provision db c
   end)%go.

(** The log entry of one album. *)
Definition row_event (a : Album) : event :=
  EvInfo "row"
    [zap_String "SingerID" (SingerId a); zap_String "AlbumID" (AlbumId a);
     zap_String "AlbumTitle" (AlbumTitle a)].

(** The request [createDatabase] builds for a parent and a name. *)
Definition request_for (parent name : string) : CreateDatabaseRequest :=
  {| Parent := parent;
     CreateStatement := "CREATE DATABASE `" +:+ name +:+ "`";
     ExtraStatements := [ddl_Singers; ddl_Albums] |}.

(** Environments for the examples: writes to [Albums] fail; the read
    breaks after one row; the wait for the operation fails. *)
Definition albums_fail_env : Env :=
  {| new_admin_client := None;
     new_client := fun _ => None;
     create_database := fun _ => None;
     wait := None;
     new_random := fun n => Ok (test_ids n);
     data_apply :=
       fun db ms =>
         if bool_decide (Exists (fun m => mut_table m = "Albums"%string) ms)
         then Fail (StatusErr Aborted "transaction aborted")
         else Fake.apply db ms;
     data_query := Fake.query |}.

Definition broken_read_env : Env :=
  {| new_admin_client := None;
     new_client := fun _ => None;
     create_database := fun _ => None;
     wait := None;
     new_random := fun n => Ok (test_ids n);
     data_apply := Fake.apply;
     data_query :=
       fun _ _ =>
         [full_row ("s"%string, "a"%string, "t"%string);
          Fail (StatusErr Unavailable "stream broken");
          full_row ("s"%string, "b"%string, "u"%string)] |}.

Definition wait_fails_env : Env :=
  {| new_admin_client := None;
     new_client := fun _ => None;
     create_database := fun _ => None;
     wait := Some (StatusErr DeadlineExceeded "operation timed out");
     new_random := fun n => Ok (test_ids n);
     data_apply := Fake.apply;
     data_query := Fake.query |}.







(** * Facts about strings *)

Section StringFacts.

(* stdpp freezes [String.append] under [simpl]; the string lemmas below
   compute with it. *)
#[local] Arguments String.append !s1 s2 : simpl nomatch.

Lemma string_length_app (a b : string) :
  String.length (a +:+ b) = String.length a + String.length b.
Proof. induction a as [|x a IH]; simpl; congruence. Qed.

Lemma substring_whole (s : string) : substring 0 (String.length s) s = s.
Proof. induction s as [|c s IH]; simpl; congruence. Qed.

Lemma substring_prefix (a b : string) :
  substring 0 (String.length a) (a +:+ b) = a.
Proof.
  induction a as [|x a IH]; simpl.
  - destruct b; reflexivity.
  - congruence.
Qed.

Lemma strip_prefix_app (p s : string) : Str.strip_prefix p (p +:+ s) = Some s.
Proof.
  induction p as [|a p IH]; simpl; [reflexivity|].
  rewrite Ascii.eqb_refl. exact IH.
Qed.

Lemma strip_prefix_Some (p s r : string) :
  Str.strip_prefix p s = Some r -> s = p +:+ r.
Proof.
  revert s; induction p as [|a p IH]; intros s; simpl.
  - congruence.
  - destruct s as [|b s]; [discriminate|].
    destruct (Ascii.eqb_spec a b) as [->|]; [|discriminate].
    intros H. rewrite (IH _ H). reflexivity.
Qed.

Lemma no_newline_app (a b : string) :
  Str.no_newline (a +:+ b) = Str.no_newline a && Str.no_newline b.
Proof.
  induction a as [|x a IH]; simpl; [reflexivity|].
  rewrite IH. apply andb_assoc.
Qed.

(** [contains] is occurrence as a factor. *)
Lemma contains_true (sub s : string) :
  Str.contains sub s = true <-> exists p n, s = p +:+ sub +:+ n.
Proof.
  split.
  - induction s as [|c s IH].
    + simpl. destruct (Str.strip_prefix sub "") as [r|] eqn:E; [|discriminate].
      intros _. exists ""%string, r. simpl. exact (strip_prefix_Some _ _ _ E).
    + simpl. destruct (Str.strip_prefix sub (String c s)) as [r|] eqn:E.
      * intros _. exists ""%string, r. exact (strip_prefix_Some _ _ _ E).
      * intros H. destruct (IH H) as (p & n & ->).
        exists (String c p), n. reflexivity.
  - intros (p & n & ->). induction p as [|c p IH].
    + simpl. destruct (sub +:+ n) as [|c r] eqn:E.
      * simpl. rewrite <- E, strip_prefix_app. reflexivity.
      * simpl. rewrite <- E, strip_prefix_app. reflexivity.
    + simpl. destruct (Str.strip_prefix sub _); [reflexivity|]. exact IH.
Qed.

Lemma contains_false (sub s : string) :
  Str.contains sub s = false <-> forall p n, s <> p +:+ sub +:+ n.
Proof.
  split.
  - intros H p n ->.
    assert (Str.contains sub (p +:+ sub +:+ n) = true) as E
      by (apply contains_true; eauto).
    congruence.
  - intros H. destruct (Str.contains sub s) eqn:E; [|reflexivity].
    apply contains_true in E as (p & n & ->). destruct (H p n eq_refl).
Qed.

Lemma contains_false_step (sub : string) (c : ascii) (s : string) :
  Str.contains sub (String c s) = false ->
  Str.strip_prefix sub (String c s) = None /\ Str.contains sub s = false.
Proof.
  simpl. destruct (Str.strip_prefix sub (String c s)); [discriminate|].
  auto.
Qed.

End StringFacts.

(** * The matcher on the pattern of [createDatabase] *)

Section PatternFacts.

#[local] Arguments String.append !s1 s2 : simpl nomatch.

(** A greedy group followed by the end anchor takes the whole rest, or
    fails when a line feed is in the way. *)
Lemma dotstar_to_end {A} (k : nat -> string -> option A) (t : string) :
  (forall q c t', k q (String c t') = None) ->
  forall q, Regexp.dotstar q t k =
            if Str.no_newline t then k (q + String.length t) EmptyString
            else None.
Proof.
  intros Hk. induction t as [|c t IH]; intros q; simpl.
  - rewrite Nat.add_0_r. reflexivity.
  - destruct (Str.dot c); simpl; [|apply Hk].
    rewrite IH. destruct (Str.no_newline t).
    + rewrite Nat.add_succ_r. simpl.
      destruct (k (S (q + String.length t)) ""); [reflexivity|apply Hk].
    + apply Hk.
Qed.

Lemma split_here_fst (s p n : string) :
  split_here s = Some (p, n) -> p = EmptyString.
Proof.
  unfold split_here. destruct (Str.strip_prefix separator s); [|discriminate].
  destruct (Str.no_newline s0); congruence.
Qed.

(** A greedy group in front of a continuation that behaves like
    [split_here] computes [split_greedy]. *)
Lemma dotstar_split {A} (k : nat -> string -> option A)
    (g : nat -> string -> A) :
  (forall p s', k p s' = match split_here s' with
                         | Some (_, n) => Some (g p n)
                         | None => None
                         end) ->
  forall s q, Regexp.dotstar q s k =
              match split_greedy s with
              | Some (p, n) => Some (g (q + String.length p) n)
              | None => None
              end.
Proof.
  intros Hk. induction s as [|c s IH]; intros q.
  - simpl. rewrite Hk. reflexivity.
  - simpl. destruct (Str.dot c).
    + rewrite IH. destruct (split_greedy s) as [[p n]|].
      * simpl. rewrite Nat.add_succ_r. reflexivity.
      * rewrite Hk. destruct (split_here (String c s)) as [[p n]|] eqn:E;
          [|reflexivity].
        rewrite (split_here_fst _ _ _ E). simpl. rewrite Nat.add_0_r.
        reflexivity.
    + rewrite Hk. destruct (split_here (String c s)) as [[p n]|] eqn:E;
        [|reflexivity].
      rewrite (split_here_fst _ _ _ E). simpl. rewrite Nat.add_0_r.
      reflexivity.
Qed.

Lemma split_here_sound (s p n : string) :
  split_here s = Some (p, n) ->
  s = p +:+ separator +:+ n /\ Str.no_newline s = true.
Proof.
  unfold split_here.
  destruct (Str.strip_prefix separator s) as [r|] eqn:E; [|discriminate].
  destruct (Str.no_newline r) eqn:N; [|discriminate].
  intros [= <- <-]. apply strip_prefix_Some in E as ->.
  split; [reflexivity|]. rewrite no_newline_app, N. reflexivity.
Qed.

(** A successful split is a decomposition of a text without line feed. *)
Lemma split_greedy_sound (s p n : string) :
  split_greedy s = Some (p, n) ->
  s = p +:+ separator +:+ n /\ Str.no_newline s = true.
Proof.
  revert p; induction s as [|c s IH]; intros p; cbn [split_greedy].
  - apply split_here_sound.
  - destruct (Str.dot c) eqn:D; [|apply split_here_sound].
    destruct (split_greedy s) as [[p' n']|]; [|apply split_here_sound].
    intros [= <- <-]. destruct (IH p' eq_refl) as [-> N].
    split; [reflexivity|]. cbn [Str.no_newline]. rewrite D. exact N.
Qed.

(** Without the separator there is no split. *)
Lemma split_greedy_none (s : string) :
  Str.contains separator s = false -> split_greedy s = None.
Proof.
  induction s as [|c s IH]; intros H.
  - reflexivity.
  - apply contains_false_step in H as [H1 H2].
    cbn [split_greedy]. rewrite (IH H2). unfold split_here. rewrite H1.
    destruct (Str.dot c); reflexivity.
Qed.

(** The split is at the last separator: when none starts after the one
    that follows [parent], the first group is [parent]. *)
Lemma split_greedy_last (parent name : string) :
  Str.no_newline (parent +:+ separator +:+ name) = true ->
  Str.contains separator ("databases/" +:+ name) = false ->
  split_greedy (parent +:+ separator +:+ name) = Some (parent, name).
Proof.
  intros N L. induction parent as [|c parent IH].
  - change ("" +:+ separator +:+ name)
      with (String "/" ("databases/" +:+ name)) in *.
    cbn [split_greedy Str.dot Ascii.eqb Bool.eqb negb Str.newline].
    rewrite (split_greedy_none _ L). unfold split_here.
    change (String "/" ("databases/" +:+ name)) with (separator +:+ name) in *.
    rewrite strip_prefix_app.
    rewrite no_newline_app in N. apply andb_true_iff in N as [_ ->].
    reflexivity.
  - change (String c parent +:+ separator +:+ name)
      with (String c (parent +:+ separator +:+ name)) in *.
    cbn [Str.no_newline] in N. apply andb_true_iff in N as [D N].
    cbn [split_greedy]. rewrite D, (IH N). reflexivity.
Qed.

(** The matcher at offset 0 is [split_greedy]. *)
Lemma match_here_0 (s : string) :
  Regexp.match_here database_pattern 0 s =
  match split_greedy s with
  | Some (p, n) => Some [s; p; n]
  | None => None
  end.
Proof.
  unfold Regexp.match_here, database_pattern.
  cbn [Regexp.rmatch Nat.eqb].
  rewrite (dotstar_split _
    (fun p n => [substring 0 (p + String.length separator + String.length n) s;
                 substring 0 p s; n])).
  - destruct (split_greedy s) as [[p n]|] eqn:E; [|reflexivity].
    destruct (split_greedy_sound _ _ _ E) as [-> _].
    rewrite !Nat.add_0_l, substring_prefix.
    rewrite <- Nat.add_assoc, <- !string_length_app, substring_whole.
    reflexivity.
  - intros p s'. unfold split_here.
    destruct (Str.strip_prefix separator s') as [r|]; [|reflexivity].
    rewrite dotstar_to_end by reflexivity.
    destruct (Str.no_newline r); [|reflexivity].
    rewrite !Nat.sub_0_r.
    replace (p + String.length separator + String.length r
             - (p + String.length separator)) with (String.length r) by lia.
    rewrite substring_whole. reflexivity.
Qed.

Lemma match_here_S (pos : nat) (s : string) :
  Regexp.match_here database_pattern (S pos) s = None.
Proof. reflexivity. Qed.

Lemma find_from_S (s : string) (pos : nat) :
  Regexp.find_from database_pattern (S pos) s = None.
Proof.
  revert pos; induction s as [|c s IH]; intros pos;
    cbn [Regexp.find_from]; rewrite match_here_S; [reflexivity|apply IH].
Qed.

Lemma FindStringSubmatch_split (s : string) :
  Regexp.FindStringSubmatch database_pattern s =
  match split_greedy s with
  | Some (p, n) => [s; p; n]
  | None => []
  end.
Proof.
  unfold Regexp.FindStringSubmatch.
  destruct s as [|c s]; cbn [Regexp.find_from]; rewrite match_here_0.
  - destruct (split_greedy "") as [[p n]|]; reflexivity.
  - destruct (split_greedy (String c s)) as [[p n]|]; [reflexivity|].
    rewrite find_from_S. reflexivity.
Qed.

(** The parser is the greedy split. *)
Lemma identifier_parser_split (db : string) :
  identifier_parser db = split_greedy db.
Proof.
  unfold identifier_parser. rewrite FindStringSubmatch_split.
  destruct (split_greedy db) as [[p n]|]; reflexivity.
Qed.

End PatternFacts.

(** * Traces *)

Section TraceFacts.

Lemma count_app (p : event -> bool) (a b : list event) :
  count p (a ++ b) = count p a + count p b.
Proof. unfold count. rewrite filter_app, length_app. reflexivity. Qed.

Lemma count_free (p : event -> bool) (tr : list event) :
  free_of p tr -> count p tr = 0.
Proof.
  unfold count, free_of. induction 1 as [|e tr He _ IH]; [reflexivity|].
  rewrite filter_cons_False; [exact IH|congruence].
Qed.

Lemma free_of_app (p : event -> bool) (a b : list event) :
  free_of p a -> free_of p b -> free_of p (a ++ b).
Proof. apply Forall_app_2. Qed.

Context {p : event -> bool}.

Lemma quiet_ret {A} (a : A) : quiet p (ret a).
Proof.
  intros env st. exists []. rewrite app_nil_r. split; [reflexivity|constructor].
Qed.

Lemma quiet_emit (e : event) : p e = false -> quiet p (emit e).
Proof.
  intros He env st. exists [e]. split; [reflexivity|].
  constructor; [exact He|constructor].
Qed.

Lemma quiet_bind {A B} (m : M A) (f : A -> M B) :
  quiet p m -> (forall a, quiet p (f a)) -> quiet p (bind m f).
Proof.
  intros Hm Hf env st. unfold bind.
  destruct (Hm env st) as (e1 & E1 & F1).
  destruct (m env st) as [[a|c] st1]; simpl in *.
  - destruct (Hf a env st1) as (e2 & E2 & F2).
    exists (e1 ++ e2). split.
    + rewrite E2, E1, app_assoc. reflexivity.
    + apply free_of_app; assumption.
  - exists e1. split; assumption.
Qed.

(** A step that reads the environment or bumps a counter, and leaves
    the trace as it is. *)
Lemma quiet_silent {A} (m : M A) :
  (forall env st, trace (snd (m env st)) = trace st) -> quiet p m.
Proof.
  intros H env st. exists []. rewrite app_nil_r. split; [apply H|constructor].
Qed.

Lemma quiet_defer {A} (d : M unit) (body : M A) :
  quiet p d -> quiet p body -> quiet p (defer d body).
Proof.
  intros Hd Hb. unfold defer.
  apply quiet_bind; [exact Hb|]. intros a.
  apply quiet_bind; [exact Hd|]. intros _. apply quiet_ret.
Qed.

End TraceFacts.

(** * Which events a function can emit *)

Section Quiet.

Ltac silent := apply quiet_silent; intros ? ?; simpl;
               repeat case_match; reflexivity.

Context (p : event -> bool).

Lemma quiet_createClients (db : string) :
  p EvNewDatabaseAdminClient = false ->
  (forall d, p (EvNewClient d) = false) ->
  quiet p (createClients db).
Proof.
  intros H1 H2. unfold createClients, NewDatabaseAdminClient, NewClient.
  apply quiet_bind.
  - apply quiet_bind; [apply quiet_emit; exact H1|intros _; silent].
  - intros [a|e]; [|apply quiet_ret].
    apply quiet_bind.
    + apply quiet_bind; [apply quiet_emit; apply H2|intros _; silent].
    + intros [d|e]; apply quiet_ret.
Qed.

Lemma quiet_Fatal {A} (msg : string) (fields : list Field) :
  (forall m f, p (EvFatal m f) = false) ->
  quiet p (@logger_Fatal A msg fields).
Proof.
  intros H. unfold logger_Fatal.
  apply quiet_bind; [apply quiet_emit; apply H|intros _; silent].
Qed.

Lemma quiet_Info (msg : string) (fields : list Field) :
  (forall m f, p (EvInfo m f) = false) -> quiet p (logger_Info msg fields).
Proof. intros H. apply quiet_emit, H. Qed.

Lemma quiet_createDatabase (c : DatabaseAdminClient) (db : string) :
  (forall r, p (EvCreateDatabase r) = false) -> p EvWait = false ->
  (forall m f, p (EvInfo m f) = false) ->
  quiet p (createDatabase c db).
Proof.
  intros H1 H2 H3. unfold createDatabase.
  destruct (_ || _); [apply quiet_ret|].
  unfold admin_CreateDatabase, op_Wait.
  apply quiet_bind.
  - apply quiet_bind; [apply quiet_emit; apply H1|intros _; silent].
  - intros [e|]; [apply quiet_ret|].
    apply quiet_bind.
    + apply quiet_bind; [apply quiet_emit; exact H2|intros _; silent].
    + intros [e|]; [apply quiet_ret|].
      apply quiet_bind; [apply quiet_Info, H3|intros _; apply quiet_ret].
Qed.

Lemma quiet_insert_uuids (n i : nat) (uuids : list string) :
  p EvNewRandom = false -> (forall m f, p (EvInfo m f) = false) ->
  quiet p (insert_uuids n i uuids).
Proof.
  intros H1 H2. revert i uuids.
  induction n as [|n IH]; intros i uuids; simpl; [apply quiet_ret|].
  apply quiet_bind.
  - unfold uuid_NewRandom.
    apply quiet_bind; [apply quiet_emit; exact H1|intros _; silent].
  - intros [u|e]; [|apply quiet_ret].
    apply quiet_bind; [apply quiet_Info, H2|intros _; apply IH].
Qed.

Lemma quiet_Apply (c : SpannerClient) (ms : list Mutation) :
  (forall m, p (EvApply m) = false) -> quiet p (client_Apply c ms).
Proof.
  intros H. unfold client_Apply.
  apply quiet_bind; [apply quiet_emit; apply H|intros _; silent].
Qed.

Lemma quiet_insert (c : SpannerClient) :
  p EvNewRandom = false -> (forall m f, p (EvInfo m f) = false) ->
  (forall m, p (EvApply m) = false) ->
  quiet p (insert c).
Proof.
  intros H1 H2 H3. unfold insert.
  apply quiet_bind; [apply quiet_insert_uuids; assumption|].
  intros [uuids|e]; [|apply quiet_ret].
  apply quiet_bind; [apply quiet_Apply, H3|].
  intros [e|]; [apply quiet_ret|apply quiet_Apply, H3].
Qed.

Lemma quiet_queryAlbums_turn (r : res Row) (albums : list Album)
    (continue : list Album -> M (list Album * option error)) :
  p EvColumns = false -> (forall a, quiet p (continue a)) ->
  quiet p (queryAlbums_turn r albums continue).
Proof.
  intros H1 H2. unfold queryAlbums_turn. destruct r as [row|e].
  - apply quiet_bind.
    + unfold row_Columns.
      apply quiet_bind; [apply quiet_emit; exact H1|intros _; apply quiet_ret].
    + intros [[[a b] t]|e]; [apply H2|apply quiet_ret].
  - destruct (bool_decide _); apply quiet_ret.
Qed.

Lemma quiet_queryAlbums_loop (iter : RowIterator) (albums : list Album) :
  p EvNext = false -> p EvColumns = false ->
  quiet p (queryAlbums_loop iter albums).
Proof.
  intros H1 H2. revert albums.
  induction iter as [|r iter IH]; intros albums; simpl.
  - apply quiet_bind.
    + unfold iter_Next.
      apply quiet_bind; [apply quiet_emit; exact H1|intros _; apply quiet_ret].
    + intros r. apply quiet_queryAlbums_turn; [exact H2|].
      intros a. apply quiet_ret.
  - apply quiet_bind.
    + unfold iter_Next.
      apply quiet_bind; [apply quiet_emit; exact H1|intros _; apply quiet_ret].
    + intros r'. apply quiet_queryAlbums_turn; [exact H2|apply IH].
Qed.

Lemma quiet_queryAlbums (c : SpannerClient) :
  (forall q, p (EvQuery q) = false) -> p EvNext = false ->
  p EvColumns = false -> p EvStop = false ->
  quiet p (queryAlbums c).
Proof.
  intros H1 H2 H3 H4. unfold queryAlbums, client_Single_Query.
  apply quiet_bind.
  - apply quiet_bind; [apply quiet_emit; apply H1|intros _; silent].
  - intros iter. apply quiet_defer; [apply quiet_emit; exact H4|].
    apply quiet_queryAlbums_loop; assumption.
Qed.

Lemma quiet_log_rows (albums : list Album) :
  (forall m f, p (EvInfo m f) = false) -> quiet p (log_rows albums).
Proof.
  intros H. induction albums as [|a rest IH]; simpl; [apply quiet_ret|].
  apply quiet_bind; [apply quiet_Info, H|intros _; exact IH].
Qed.

End Quiet.

(** * The identifier parser *)

Section Parser.

(** [createDatabase] and the parser share the guard of line 59. *)
Lemma createDatabase_invalid (c : DatabaseAdminClient) (db : string)
    (env : Env) (st : State) :
  identifier_parser db = None ->
  createDatabase c db env st
  = (Ret (Some (Errorf ("Invalid database id " +:+ db))), st).
Proof.
  unfold identifier_parser, createDatabase.
  destruct (_ || _); [reflexivity|discriminate].
Qed.

Lemma createDatabase_valid (c : DatabaseAdminClient) (db parent name : string) :
  identifier_parser db = Some (parent, name) ->
  createDatabase c db
  = (err <- admin_CreateDatabase c
              {| Parent := parent;
                 CreateStatement := "CREATE DATABASE `" +:+ name +:+ "`";
                 ExtraStatements := [ddl_Singers; ddl_Albums] |} ;;
     match err with
     | Some e => ret (Some e)
     | None =>
         err <- op_Wait ;;
         match err with
         | Some e => ret (Some e)
         | None =>
             logger_Info "Created database" [zap_String "db" db] ;;
             ret None
         end
     end)%go.
Proof.
  unfold identifier_parser, createDatabase, createDatabase_request.
  destruct (_ || _); [discriminate|].
  intros [= <- <-]. reflexivity.
Qed.

End Parser.

(** C1 (as amended).  The parser splits at the last separator: for a text
    [parent/databases/name] without line feed in which no further
    [/databases/] starts after [parent] (one could share the closing
    slash of the first, hence the test on ["databases/" ++ name]), the
    two groups are exactly [parent] and [name]; and a text in which
    [/databases/] does not occur is refused, [createDatabase] returning
    its "Invalid database id" error with nothing sent and nothing logged. *)
Theorem C1_parser_splits_at_last_separator :
  (forall parent name : string,
      Str.no_newline (parent +:+ separator +:+ name) = true ->
      Str.contains separator ("databases/" +:+ name) = false ->
      identifier_parser (parent +:+ separator +:+ name) = Some (parent, name))
  /\
  (forall db : string,
      Str.contains separator db = false ->
      identifier_parser db = None /\
      forall c env st,
        createDatabase c db env st
        = (Ret (Some (Errorf ("Invalid database id " +:+ db))), st)).
Proof.
  split.
  - intros parent name N L.
    rewrite identifier_parser_split. apply split_greedy_last; assumption.
  - intros db H.
    assert (identifier_parser db = None) as E
      by (rewrite identifier_parser_split; apply split_greedy_none, H).
    split; [exact E|]. intros c env st. apply createDatabase_invalid, E.
Qed.

Lemma C1_parser_splits_at_last_separator_witness :
  (Str.no_newline
     ("projects/create-table-test/instances/test-instance" +:+ separator
      +:+ "example-db") = true /\
   Str.contains separator ("databases/" +:+ "example-db") = false /\
   identifier_parser
     ("projects/create-table-test/instances/test-instance" +:+ separator
      +:+ "example-db")
   = Some ("projects/create-table-test/instances/test-instance"%string,
           "example-db"%string))
  /\
  (Str.contains separator "projects/p/instances/i" = false /\
   identifier_parser "projects/p/instances/i" = None).
Proof.
  split.
  - split; [reflexivity|]. split; [reflexivity|].
    apply (proj1 C1_parser_splits_at_last_separator); reflexivity.
  - split; [reflexivity|].
    apply (proj2 C1_parser_splits_at_last_separator "projects/p/instances/i").
    reflexivity.
Defined.

(** C1 as the specification words it fails: a text of the form
    [parent/databases/name] whose name itself contains the separator is
    not split into that parent and that name, and one with a line feed in
    the parent is refused. *)
Lemma C1_counterexample :
  identifier_parser ("a" +:+ separator +:+ "b/databases/c")
    <> Some ("a"%string, "b/databases/c"%string)
  /\ identifier_parser
       (String "a" (String Str.newline "") +:+ separator +:+ "b")
     = None.
Proof. split; [vm_compute; discriminate|vm_compute; reflexivity]. Qed.

(** C10.  Both groups may be empty, and with several separators the first
    group takes everything up to the last one. *)
Theorem C10_empty_groups_and_last_separator :
  identifier_parser "/databases/" = Some (""%string, ""%string)
  /\ identifier_parser "a/databases/b/databases/c"
     = Some ("a/databases/b"%string, "c"%string)
  /\ Regexp.FindStringSubmatch database_pattern "/databases/"
     = ["/databases/"%string; ""%string; ""%string]
  /\ Regexp.FindStringSubmatch database_pattern "a/databases/b/databases/c"
     = ["a/databases/b/databases/c"%string; "a/databases/b"%string;
        "c"%string].
Proof. repeat split; vm_compute; reflexivity. Qed.

(** * The entry point *)

Section Main.

Lemma bind_Ret {A B} (m : M A) (f : A -> M B) env st a st' :
  m env st = (Ret a, st') -> bind m f env st = f a env st'.
Proof. intros H. unfold bind. rewrite H. reflexivity. Qed.


(** [createClients] step by step. *)
Lemma createClients_run (db : string) (env : Env) (st : State) :
  createClients db env st =
  match new_admin_client env with
  | Some e => (Ret (Fail e), log_event EvNewDatabaseAdminClient st)
  | None =>
      let st1 := log_event (EvNewClient db)
                   (log_event EvNewDatabaseAdminClient st) in
      match new_client env db with
      | Some e => (Ret (Fail e), st1)
      | None =>
          (Ret (Ok {| admin := AdminHandle; client := DataHandle db |}), st1)
      end
  end.
Proof.
  unfold createClients, NewDatabaseAdminClient, NewClient, bind, emit, ret.
  destruct (new_admin_client env); [reflexivity|].
  destruct (new_client env db); reflexivity.
Qed.

(** No function of the program emits a close event. *)
Lemma quiet_close_main_read (db : string) (c : Client) :
  quiet is_close (main_read db c).
Proof.
  unfold main_read. apply quiet_bind.
  - apply quiet_queryAlbums; intros; reflexivity.
  - intros [albums [e|]].
    + apply quiet_bind; [apply quiet_Fatal; reflexivity|].
      intros _. apply quiet_log_rows; reflexivity.
    + apply quiet_bind; [apply quiet_ret|].
      intros _. apply quiet_log_rows; reflexivity.
Qed.

Lemma quiet_close_main_seed (db : string) (c : Client) :
  quiet is_close (main_seed db c).
Proof.
  unfold main_seed. apply quiet_bind.
  - apply quiet_insert; intros; reflexivity.
  - intros [e|]; (apply quiet_bind;
      [|intros _; apply quiet_close_main_read]).
    + apply quiet_Fatal; reflexivity.
    + apply quiet_ret.
Qed.

Lemma quiet_close_main_provision (db : string) (c : Client) :
  quiet is_close (main_provision db c).
Proof.
  unfold main_provision. apply quiet_bind.
  - apply quiet_createDatabase; intros; reflexivity.
  - intros [e|]; (apply quiet_bind;
      [|intros _; apply quiet_close_main_seed]).
    + destruct (bool_decide _);
        [apply quiet_Fatal; reflexivity|apply quiet_ret].
    + apply quiet_ret.
Qed.

Lemma quiet_close_main_with (db : string) : quiet is_close (main_with db).
Proof.
  unfold main_with. apply quiet_defer; [apply quiet_emit; reflexivity|].
  apply quiet_bind.
  - apply quiet_createClients; intros; reflexivity.
  - intros [c|e];
      [apply quiet_close_main_provision|apply quiet_Fatal; reflexivity].
Qed.

End Main.

(** C3.  When [createDatabase] returns an error, [main] goes on with the
    seed step, from the state provisioning left, if the code of the error
    is [AlreadyExists]; with any other code it logs "Create database" at
    fatal level and the process exits with status 1. *)
Theorem C3_already_exists_is_tolerated
    (db : string) (c : Client) (env : Env) (st st1 : State) (e : error) :
  createDatabase (admin c) db env st = (Ret (Some e), st1) ->
  (ErrCode e = AlreadyExists ->
   main_provision db c env st = main_seed db c env st1)
  /\
  (ErrCode e <> AlreadyExists ->
   main_provision db c env st
   = (Exit 1,
      log_event (EvFatal "Create database" [zap_String "db" db; zap_Error e])
        st1)).
Proof.
  intros H. unfold main_provision.
  rewrite (bind_Ret _ _ _ _ _ _ H). cbn beta iota.
  split; intros Hc.
  - rewrite bool_decide_eq_false_2 by (intros N; exact (N Hc)).
    reflexivity.
  - rewrite bool_decide_eq_true_2 by exact Hc. reflexivity.
Qed.

Lemma C3_already_exists_is_tolerated_witness :
  let c := {| admin := AdminHandle; client := DataHandle main_db |} in
  let st := initial Fake.empty in
  (main_provision main_db c already_exists_env st
   = main_seed main_db c already_exists_env
       (snd (createDatabase AdminHandle main_db already_exists_env st)))
  /\
  fst (main_provision main_db c quota_env st) = Exit 1.
Proof.
  intros c st. split.
  - refine (proj1 (C3_already_exists_is_tolerated main_db c already_exists_env
                     st _ (StatusErr AlreadyExists "database already exists")
                     _) eq_refl).
    vm_compute. reflexivity.
  - assert (createDatabase (admin c) main_db quota_env st
            = (Ret (Some (StatusErr ResourceExhausted "quota exceeded")),
               snd (createDatabase AdminHandle main_db quota_env st))) as H
      by (vm_compute; reflexivity).
    rewrite (proj2 (C3_already_exists_is_tolerated _ _ _ _ _ _ H));
      [reflexivity|discriminate].
Defined.

(** C7.  The program never closes its two handles.  The method [Close]
    would close both, the data client first; but in the run in which
    every call succeeds [main] returns having opened both and closed
    neither, and no run of [main], whatever the libraries answer and
    whatever the target, contains a close event. *)
Theorem C7_main_never_closes_the_handles :
  (forall (c : Client) (env : Env) (s : Store),
      events (run (Client_Close c) env s) = [EvClientClose; EvAdminClose])
  /\
  (let r := run main (Fake.env test_ids) Fake.empty in
   fst r = Ret tt /\
   In EvNewDatabaseAdminClient (events r) /\
   In (EvNewClient main_db) (events r) /\
   count is_close (events r) = 0)
  /\
  (forall (db : string) (env : Env) (s : Store),
      count is_close (events (run (main_with db) env s)) = 0).
Proof.
  split; [reflexivity|]. split.
  - vm_compute. repeat split; auto.
  - intros db env s. unfold events, run.
    destruct (quiet_close_main_with db env (initial s)) as (evs & E & F).
    rewrite E. simpl. apply count_free, F.
Qed.



(** * The row reader *)

Section Reader.

Ltac go :=
  repeat progress
    (cbn [queryAlbums_loop queryAlbums_turn full_row album_of];
     unfold iter_Next, row_Columns, bind, emit, ret;
     cbn beta iota zeta).

Lemma log_events_nil (st : State) : log_events [] st = st.
Proof.
  destruct st. unfold log_events. simpl. rewrite app_nil_r. reflexivity.
Qed.

Lemma log_events_app (a b : list event) (st : State) :
  log_events b (log_events a st) = log_events (a ++ b) st.
Proof. unfold log_events. simpl. rewrite app_assoc. reflexivity. Qed.

(** The loop at the end of the results. *)
Lemma loop_done (iter : RowIterator) (acc : list Album) env st :
  at_done iter ->
  queryAlbums_loop iter acc env st = (Ret (acc, None), log_events [EvNext] st).
Proof. intros [->|[rest ->]]; reflexivity. Qed.

(** The loop at an iteration error. *)
Lemma loop_error (e : error) (rest : RowIterator) (acc : list Album) env st :
  e <> IteratorDone ->
  queryAlbums_loop (Fail e :: rest) acc env st
  = (Ret ([], Some e), log_events [EvNext] st).
Proof.
  intros H. go. rewrite bool_decide_eq_false_2 by exact H.
  reflexivity.
Qed.

(** The loop at a row that does not decode. *)
Lemma loop_bad_row (row : Row) (e : error) (rest : RowIterator)
    (acc : list Album) env st :
  decode3 row = Fail e ->
  queryAlbums_loop (Ok row :: rest) acc env st
  = (Ret ([], Some e), log_events [EvNext; EvColumns] st).
Proof.
  intros H. go. rewrite H. unfold log_event, log_events.
  cbn [trace store rand_calls].
  rewrite <- app_assoc. reflexivity.
Qed.

(** The loop at a row that decodes: one more record, and on. *)
Lemma loop_good_row (t : string * string * string) (rest : RowIterator)
    (acc : list Album) env st :
  queryAlbums_loop (full_row t :: rest) acc env st
  = queryAlbums_loop rest (acc ++ [album_of t]) env
      (log_events [EvNext; EvColumns] st).
Proof.
  destruct t as [[a b] c]. go. cbn [decode3]. go.
  unfold log_event, log_events. cbn [trace store rand_calls].
  rewrite <- app_assoc. reflexivity.
Qed.

Lemma loop_rows (ts : list (string * string * string)) (rest : RowIterator)
    (acc : list Album) env st :
  queryAlbums_loop ((full_row <$> ts) ++ rest) acc env st
  = queryAlbums_loop rest (acc ++ (album_of <$> ts)) env
      (log_events (read_events (length ts)) st).
Proof.
  revert acc st. induction ts as [|t ts IH]; intros acc st.
  - cbn. rewrite app_nil_r, log_events_nil. reflexivity.
  - cbn [fmap list_fmap app]. rewrite loop_good_row, IH, log_events_app.
    rewrite <- app_assoc. reflexivity.
Qed.

(** Every iterator is a run of rows that decode followed by the end, an
    error, or a row that does not decode. *)
Lemma iterator_cases (iter : RowIterator) :
  exists ts rest, iter = (full_row <$> ts) ++ rest /\
    (at_done rest
     \/ (exists e rest', rest = Fail e :: rest' /\ e <> IteratorDone)
     \/ (exists row e rest', rest = Ok row :: rest' /\ decode3 row = Fail e)).
Proof.
  induction iter as [|r iter (ts & rest & -> & H)].
  - exists [], []. split; [reflexivity|]. left. left. reflexivity.
  - destruct r as [row|e].
    + destruct (decode3 row) as [t|e] eqn:D.
      * exists (t :: ts), rest. split; [|exact H].
        cbn. f_equal. unfold decode3 in D.
        destruct row as [|[a|] [|[b|] [|[c|] [|? ?]]]]; try discriminate.
        injection D as <-. reflexivity.
      * exists [], (Ok row :: (full_row <$> ts) ++ rest).
        split; [reflexivity|]. right. right. eauto.
    + destruct (decide (e = IteratorDone)) as [->|N].
      * exists [], (Fail IteratorDone :: (full_row <$> ts) ++ rest).
        split; [reflexivity|]. left. right. eauto.
      * exists [], (Fail e :: (full_row <$> ts) ++ rest).
        split; [reflexivity|]. right. left. eauto.
Qed.

(** The loop always returns; it never exits the process. *)
Lemma loop_returns (iter : RowIterator) (acc : list Album) env st :
  exists r evs, queryAlbums_loop iter acc env st = (Ret r, log_events evs st)
                /\ free_of is_stop evs.
Proof.
  destruct (iterator_cases iter) as (ts & rest & -> & H).
  rewrite loop_rows.
  assert (free_of is_stop (read_events (length ts))) as F.
  { unfold read_events, free_of.
    induction (length ts) as [|n IH]; cbn; [constructor|].
    repeat constructor. exact IH. }
  destruct H as [H|[(e & rest' & -> & H)|(row & e & rest' & -> & H)]].
  - rewrite (loop_done _ _ _ _ H), log_events_app. eexists _, _.
    split; [reflexivity|]. apply free_of_app; [exact F|repeat constructor].
  - rewrite (loop_error _ _ _ _ _ H), log_events_app. eexists _, _.
    split; [reflexivity|]. apply free_of_app; [exact F|repeat constructor].
  - rewrite (loop_bad_row _ _ _ _ _ _ H), log_events_app. eexists _, _.
    split; [reflexivity|]. apply free_of_app; [exact F|repeat constructor].
Qed.

(** [queryAlbums] is the query, the loop, and then the deferred [Stop]. *)
Lemma queryAlbums_run (c : SpannerClient) env st r st1 :
  queryAlbums_loop (data_query env (store st) query_sql) [] env
    (log_events [EvQuery query_sql] st) = (Ret r, st1) ->
  queryAlbums c env st = (Ret r, log_events [EvStop] st1).
Proof.
  intros H. unfold queryAlbums, client_Single_Query, defer.
  unfold bind at 1. unfold bind at 1. cbn [emit].
  unfold bind at 1. change (log_event (EvQuery query_sql) st)
    with (log_events [EvQuery query_sql] st).
  cbn [store log_events]. cbn [store log_events] in H. rewrite H.
  reflexivity.
Qed.

End Reader.

(** C5.  [queryAlbums] reads the rows that decode for as long as there
    are some.  If what follows them is the end of the results
    ([iterator.Done]) it returns the records read so far and a nil error;
    if it is another iteration error, or a row that [Columns] cannot
    decode, it returns that error and no list.  One of the three always
    applies, so the nil error is returned exactly when the iterator came
    to [iterator.Done]. *)
Theorem C5_queryAlbums_ends_on_done_or_error
    (c : SpannerClient) (env : Env) (st : State) :
  let iter := data_query env (store st) query_sql in
  let r := fst (queryAlbums c env st) in
  (forall ts rest,
      iter = (full_row <$> ts) ++ rest -> at_done rest ->
      r = Ret (album_of <$> ts, None))
  /\ (forall ts e rest,
         iter = (full_row <$> ts) ++ Fail e :: rest -> e <> IteratorDone ->
         r = Ret ([], Some e))
  /\ (forall ts row e rest,
         iter = (full_row <$> ts) ++ Ok row :: rest -> decode3 row = Fail e ->
         r = Ret ([], Some e))
  /\ ((exists albums, r = Ret (albums, None)) <->
      (exists ts rest, iter = (full_row <$> ts) ++ rest /\ at_done rest)).
Proof.
  intros iter r.
  assert (forall ts rest, iter = (full_row <$> ts) ++ rest -> at_done rest ->
                          r = Ret (album_of <$> ts, None)) as H1.
  { intros ts rest E D. subst r. erewrite queryAlbums_run; [reflexivity|].
    fold iter. rewrite E, loop_rows, (loop_done _ _ _ _ D). reflexivity. }
  assert (forall ts e rest,
             iter = (full_row <$> ts) ++ Fail e :: rest -> e <> IteratorDone ->
             r = Ret ([], Some e)) as H2.
  { intros ts e rest E N. subst r. erewrite queryAlbums_run; [reflexivity|].
    fold iter. rewrite E, loop_rows, (loop_error _ _ _ _ _ N). reflexivity. }
  assert (forall ts row e rest,
             iter = (full_row <$> ts) ++ Ok row :: rest ->
             decode3 row = Fail e -> r = Ret ([], Some e)) as H3.
  { intros ts row e rest E D. subst r. erewrite queryAlbums_run; [reflexivity|].
    fold iter. rewrite E, loop_rows, (loop_bad_row _ _ _ _ _ _ D).
    reflexivity. }
  repeat split; try assumption.
  - intros [albums Ha].
    destruct (iterator_cases iter) as (ts & rest & E & H).
    destruct H as [H|[(e & rest' & -> & H)|(row & e & rest' & -> & H)]].
    + eauto.
    + rewrite (H2 _ _ _ E H) in Ha. discriminate.
    + rewrite (H3 _ _ _ _ E H) in Ha. discriminate.
  - intros (ts & rest & E & D). eauto.
Qed.

(** C9.  Whatever the iterator delivers, [queryAlbums] returns to its
    caller and has called [Stop] exactly once, as its last action. *)
Theorem C9_queryAlbums_stops_the_iterator_once
    (c : SpannerClient) (env : Env) (st : State) :
  exists r evs,
    queryAlbums c env st = (Ret r, log_events evs st) /\
    count is_stop evs = 1 /\
    last evs = Some EvStop.
Proof.
  destruct (loop_returns (data_query env (store st) query_sql) [] env
              (log_events [EvQuery query_sql] st)) as (r & evs & E & F).
  exists r, (([EvQuery query_sql] ++ evs) ++ [EvStop]).
  split; [|split].
  - rewrite (queryAlbums_run _ _ _ _ _ E), !log_events_app. reflexivity.
  - rewrite !count_app, (count_free _ _ F). reflexivity.
  - apply last_snoc.
Qed.

(** * The seed loader *)

Section Seed.

(** One turn of the identifier loop when the random source answers. *)
Lemma insert_uuids_step (n i : nat) (uuids : list string) env st (u : string) :
  new_random env (rand_calls st) = Ok u ->
  insert_uuids (S n) i uuids env st
  = insert_uuids n (S i) (<[i := u]> uuids) env
      {| store := store st; rand_calls := S (rand_calls st);
         trace := trace st ++
                  [EvNewRandom;
                   EvInfo "uuid"
                     [zap_Int "index" i;
                      zap_String "UUID" (at_index (<[i := u]> uuids) i)]] |}.
Proof.
  intros H. cbn [insert_uuids].
  unfold uuid_NewRandom, logger_Info, bind, emit, ret, log_event.
  cbn [store rand_calls trace]. rewrite H. cbn beta iota zeta.
  cbn [store rand_calls trace]. rewrite <- app_assoc. reflexivity.
Qed.

(** ... and when it fails. *)
Lemma insert_uuids_fail (n i : nat) (uuids : list string) env st (e : error) :
  new_random env (rand_calls st) = Fail e ->
  insert_uuids (S n) i uuids env st
  = (Ret (Fail e),
     {| store := store st; rand_calls := S (rand_calls st);
        trace := trace st ++ [EvNewRandom] |}).
Proof.
  intros H. cbn [insert_uuids].
  unfold uuid_NewRandom, bind, emit, ret, log_event.
  cbn [store rand_calls trace]. rewrite H. reflexivity.
Qed.

(** The loop changes no table and applies nothing. *)
Lemma insert_uuids_frame (n i : nat) (uuids : list string) env st :
  store (snd (insert_uuids n i uuids env st)) = store st /\
  exists evs, trace (snd (insert_uuids n i uuids env st)) = trace st ++ evs
              /\ free_of is_apply evs.
Proof.
  split; [|apply quiet_insert_uuids; intros; reflexivity].
  revert i uuids st. induction n as [|n IH]; intros i uuids st;
    [reflexivity|].
  destruct (new_random env (rand_calls st)) as [u|e] eqn:E.
  - rewrite (insert_uuids_step _ _ _ _ _ _ E), IH. reflexivity.
  - rewrite (insert_uuids_fail _ _ _ _ _ _ E). reflexivity.
Qed.

Lemma insert_uuids_turn (n i : nat) (uuids uuids' : list string) env st
    (u : string) :
  new_random env (rand_calls st) = Ok u ->
  <[i := u]> uuids = uuids' ->
  at_index uuids' i = u ->
  insert_uuids (S n) i uuids env st
  = insert_uuids n (S i) uuids' env
      {| store := store st; rand_calls := S (rand_calls st);
         trace := trace st ++
                  [EvNewRandom;
                   EvInfo "uuid" [zap_Int "index" i; zap_String "UUID" u]] |}.
Proof.
  intros H <- E. rewrite (insert_uuids_step _ _ _ _ _ _ H), E. reflexivity.
Qed.

Ltac turn H ids j :=
  erewrite (insert_uuids_turn _ _ _ _ _ _ (ids j));
  [|apply (H j); [lia|reflexivity]|cbv; reflexivity|reflexivity];
  cbn [store rand_calls trace].

(** The ten turns in a run in which the random source delivers [ids]. *)
Lemma insert_uuids_10 env st (ids : nat -> string) :
  (forall j, j < 10 -> new_random env (j + rand_calls st) = Ok (ids j)) ->
  insert_uuids 10 0 (replicate 10 EmptyString) env st
  = (Ret (Ok (ids <$> seq 0 10)),
     {| store := store st; rand_calls := 10 + rand_calls st;
        trace := trace st ++ flat_map (uuid_events ids) (seq 0 10) |}).
Proof.
  intros H.
  assert (forall j, j < 10 -> forall st',
             rand_calls st' = j + rand_calls st ->
             new_random env (rand_calls st') = Ok (ids j)) as H'.
  { intros j Hj st' ->. apply H, Hj. }
  change (replicate 10 EmptyString) with (replicate 10 ""%string).
  cbn [replicate].
  turn H' ids 0. turn H' ids 1. turn H' ids 2. turn H' ids 3. turn H' ids 4.
  turn H' ids 5. turn H' ids 6. turn H' ids 7. turn H' ids 8. turn H' ids 9.
  cbn [insert_uuids ret store rand_calls trace].
  rewrite <- !app_assoc. reflexivity.
Qed.

(** [insert] after the identifier loop. *)
Lemma insert_after_uuids (c : SpannerClient) env st uuids st1 :
  insert_uuids 10 0 (replicate 10 EmptyString) env st = (Ret (Ok uuids), st1) ->
  insert c env st
  = (err <- client_Apply c (insert_m1 uuids) ;;
     match err with
     | Some e => ret (Some e)
     | None => client_Apply c (insert_m2 uuids)
     end)%go env st1.
Proof.
  intros H. unfold insert. rewrite (bind_Ret _ _ _ _ _ _ H). reflexivity.
Qed.

Lemma client_Apply_fail (c : SpannerClient) ms env st e :
  data_apply env (store st) ms = Fail e ->
  client_Apply c ms env st = (Ret (Some e), log_event (EvApply ms) st).
Proof.
  intros H. unfold client_Apply, bind, emit. cbn [store log_event].
  rewrite H. reflexivity.
Qed.

Lemma client_Apply_ok (c : SpannerClient) ms env st db' :
  data_apply env (store st) ms = Ok db' ->
  client_Apply c ms env st
  = (Ret None,
     {| store := db'; rand_calls := rand_calls st;
        trace := trace st ++ [EvApply ms] |}).
Proof.
  intros H. unfold client_Apply, bind, emit. cbn [store log_event].
  rewrite H. reflexivity.
Qed.

End Seed.

(** C4.  When the identifier loop has completed and applying the first
    batch returns an error, [insert] returns that error; the trace of the
    call ends with the application of the first batch and contains no
    other application, so the second batch is never applied, and the
    tables are as they were before the call. *)
Theorem C4_first_batch_failure_skips_second_batch
    (c : SpannerClient) (env : Env) (st st1 : State) (uuids : list string)
    (e : error) :
  insert_uuids 10 0 (replicate 10 EmptyString) env st = (Ret (Ok uuids), st1) ->
  data_apply env (store st1) (insert_m1 uuids) = Fail e ->
  let r := insert c env st in
  fst r = Ret (Some e) /\
  store (snd r) = store st /\
  exists evs,
    trace (snd r) = trace st ++ evs ++ [EvApply (insert_m1 uuids)] /\
    free_of is_apply evs /\
    ~ In (EvApply (insert_m2 uuids)) (evs ++ [EvApply (insert_m1 uuids)]).
Proof.
  intros H1 H2 r. subst r.
  rewrite (insert_after_uuids _ _ _ _ _ H1).
  rewrite (bind_Ret _ _ _ _ _ _ (client_Apply_fail c _ _ _ _ H2)).
  cbn [ret fst snd log_event store trace].
  destruct (insert_uuids_frame 10 0 (replicate 10 EmptyString) env st)
    as (Hs & evs & Ht & F).
  rewrite H1 in Hs, Ht. cbn [snd] in Hs, Ht.
  split; [reflexivity|]. split; [exact Hs|].
  exists evs. split; [rewrite Ht, app_assoc; reflexivity|].
  split; [exact F|].
  intros [I|I]%in_app_or.
  - unfold free_of in F. rewrite Forall_forall in F.
    apply list_elem_of_In, F in I. discriminate.
  - destruct I as [I|[]]. discriminate.
Qed.

Lemma C4_first_batch_failure_skips_second_batch_witness :
  let c := DataHandle main_db in
  let r := insert c apply_fails_env (initial Fake.empty) in
  fst r = Ret (Some (StatusErr Unavailable "connection lost")) /\
  store (snd r) = Fake.empty.
Proof.
  intros c r.
  assert (forall j, j < 10 ->
             new_random apply_fails_env (j + rand_calls (initial Fake.empty))
             = Ok (test_ids j)) as H0
    by (intros j _; cbn; rewrite Nat.add_0_r; reflexivity).
  pose proof (insert_uuids_10 apply_fails_env (initial Fake.empty) test_ids H0)
    as H1.
  destruct (C4_first_batch_failure_skips_second_batch c apply_fails_env _ _ _
              (StatusErr Unavailable "connection lost") H1 eq_refl)
    as (R & S & _).
  split; [exact R|exact S].
Defined.

(** C6 (as amended).  In a run in which the random source answers the ten
    calls, [insert] makes exactly ten calls of [NewRandom] and logs each
    identifier with its index; it builds five [Singers] mutations with
    the fixed names, keyed by the first five identifiers, and five
    [Albums] mutations with the fixed titles, keyed by the last five and
    each referring to one of the first three; and it goes on to apply the
    first batch and then, unless that fails, the second. *)
Theorem C6_ten_identifiers_two_batches
    (c : SpannerClient) (env : Env) (st : State) (ids : nat -> string) :
  (forall j, j < 10 -> new_random env (j + rand_calls st) = Ok (ids j)) ->
  let uuids := ids <$> seq 0 10 in
  let logged := flat_map (uuid_events ids) (seq 0 10) in
  let st1 := {| store := store st; rand_calls := 10 + rand_calls st;
                trace := trace st ++ logged |} in
  insert_uuids 10 0 (replicate 10 EmptyString) env st = (Ret (Ok uuids), st1)
  /\ insert c env st
     = (err <- client_Apply c (insert_m1 uuids) ;;
        match err with
        | Some e => ret (Some e)
        | None => client_Apply c (insert_m2 uuids)
        end)%go env st1
  /\ length uuids = 10
  /\ count is_new_random logged = 10
  /\ count is_uuid_log logged = 10
  /\ insert_m1 uuids
     = zip_with (fun id name =>
                   InsertOrUpdate "Singers" singerColumns [id; name.1; name.2])
         (take 5 uuids) singer_names
  /\ length (insert_m1 uuids) = 5
  /\ insert_m2 uuids
     = zip_with (fun key title =>
                   InsertOrUpdate "Albums" albumColumns [key.1; key.2; title])
         (album_key <$> insert_m2 uuids) album_titles
  /\ length (insert_m2 uuids) = 5
  /\ (album_key <$> insert_m2 uuids).*2 = drop 5 uuids
  /\ Forall (fun parent => parent ∈ take 3 uuids)
       (album_key <$> insert_m2 uuids).*1.
Proof.
  intros H uuids logged st1.
  split; [apply (insert_uuids_10 env st ids H)|].
  split; [apply insert_after_uuids, (insert_uuids_10 env st ids H)|].
  repeat split; try reflexivity.
  cbn. repeat constructor; set_solver.
Qed.

Lemma C6_ten_identifiers_two_batches_witness :
  (forall j, j < 10 ->
     new_random (Fake.env test_ids) (j + rand_calls (initial Fake.empty))
     = Ok (test_ids j)) /\
  length (test_ids <$> seq 0 10) = 10 /\
  count is_new_random (flat_map (uuid_events test_ids) (seq 0 10)) = 10 /\
  count is_uuid_log (flat_map (uuid_events test_ids) (seq 0 10)) = 10.
Proof.
  assert (forall j, j < 10 ->
             new_random (Fake.env test_ids)
               (j + rand_calls (initial Fake.empty))
             = Ok (test_ids j)) as H0
    by (intros j _; cbn; rewrite Nat.add_0_r; reflexivity).
  split; [exact H0|].
  pose proof (C6_ten_identifiers_two_batches (DataHandle main_db)
                (Fake.env test_ids) (initial Fake.empty) test_ids H0)
    as (_ & _ & L & N & U & _).
  split; [exact L|]. split; [exact N|exact U].
Defined.

(** C6 as the specification words it fails in a run in which the random
    source has nothing to give: the first call of [NewRandom] fails,
    [insert] returns that error, and no identifier has been logged and no
    batch applied. *)
Lemma C6_counterexample :
  let r := run (insert (DataHandle main_db)) no_entropy_env Fake.empty in
  fst r = Ret (Some (Errorf "crypto/rand: no entropy")) /\
  events r = [EvNewRandom] /\
  count is_uuid_log (events r) <> 10 /\
  count is_apply (events r) = 0.
Proof. vm_compute. repeat split. discriminate. Qed.

(** * Writing and reading back on the in-memory data plane *)

Section WriteRead.

Lemma apply_one_singer (db : Store) (sid first last : string) :
  Fake.apply_one db (InsertOrUpdate "Singers" singerColumns [sid; first; last])
  = Ok {| singers := <[sid := (first, last)]> (singers db);
          albums := albums db |}.
Proof. reflexivity. Qed.

Lemma apply_one_album (db : Store) (sid aid title : string) :
  is_Some (singers db !! sid) ->
  Fake.apply_one db (InsertOrUpdate "Albums" albumColumns [sid; aid; title])
  = Ok {| singers := singers db;
          albums := <[(sid, aid) := Some title]> (albums db) |}.
Proof.
  intros [x H]. unfold Fake.apply_one.
  cbn [mut_table mut_columns mut_values].
  rewrite bool_decide_eq_false_2 by discriminate.
  rewrite !bool_decide_eq_true_2 by reflexivity.
  rewrite H. reflexivity.
Qed.

(** The two batches on tables without albums. *)
Lemma apply_both (db : Store) (uuids : list string) :
  albums db = ∅ ->
  exists db1 db2,
    Fake.apply db (insert_m1 uuids) = Ok db1 /\
    Fake.apply db1 (insert_m2 uuids) = Ok db2 /\
    albums db2 = list_to_map (reverse (album_entry <$> insert_m2 uuids)).
Proof.
  intros E. eexists _, _. split; [|split].
  - unfold insert_m1. cbn [Fake.apply]. rewrite !apply_one_singer.
    reflexivity.
  - unfold insert_m2. cbn [Fake.apply singers albums].
    repeat (rewrite apply_one_album;
            [|cbn [singers]; rewrite !lookup_insert_is_Some'; auto 10]).
    reflexivity.
  - cbn [albums]. rewrite E. reflexivity.
Qed.

(** Rows of the stand-in with a title are rows that decode. *)
Lemma album_rows_full (l : list (string * string * option string)) :
  Forall (fun kv => is_Some kv.2) l ->
  Fake.album_row <$> l = full_row <$> (entry_triple <$> l).
Proof.
  induction 1 as [|[[a b] t] l [x Hx] _ IH]; [reflexivity|].
  cbn in Hx. subst t.
  cbn [fmap list_fmap]. cbn [fmap list_fmap] in IH. rewrite IH.
  reflexivity.
Qed.

(** Reading tables all of whose albums have a title. *)
Lemma queryAlbums_fake (c : SpannerClient) env st :
  data_query env = Fake.query ->
  map_Forall (fun _ t => is_Some t) (albums (store st)) ->
  exists st2,
    queryAlbums c env st
    = (Ret (album_of <$> (entry_triple <$> map_to_list (albums (store st))),
            None), st2).
Proof.
  intros Q F. eexists. apply queryAlbums_run. rewrite Q.
  unfold Fake.query. rewrite bool_decide_eq_true_2 by reflexivity.
  rewrite album_rows_full.
  - rewrite <- (app_nil_r (full_row <$> _)), loop_rows.
    rewrite (loop_done [] _ _ _ (or_introl eq_refl)). reflexivity.
  - apply Forall_forall. intros [k t] I.
    apply elem_of_map_to_list in I. exact (F k t I).
Qed.

End WriteRead.

(** C2 (as amended).  On the in-memory data plane, with a random source
    that answers, an [Albums] table that is empty before the seed and
    five pairwise different child keys, the seed step succeeds and
    [queryAlbums] then returns exactly five records, which are, in some
    order, the five child rows of the second batch. *)
Theorem C2_query_returns_the_seeded_albums
    (c : SpannerClient) (env : Env) (st : State) (ids : nat -> string) :
  data_apply env = Fake.apply ->
  data_query env = Fake.query ->
  (forall j, j < 10 -> new_random env (j + rand_calls st) = Ok (ids j)) ->
  albums (store st) = ∅ ->
  NoDup (album_key <$> insert_m2 (ids <$> seq 0 10)) ->
  exists st1 rows st2,
    insert c env st = (Ret None, st1) /\
    queryAlbums c env st1 = (Ret (rows, None), st2) /\
    length rows = 5 /\
    rows ≡ₚ album_of_mutation <$> insert_m2 (ids <$> seq 0 10).
Proof.
  intros A Q H E N.
  set (uuids := ids <$> seq 0 10) in *.
  destruct (apply_both (store st) uuids E) as (db1 & db2 & A1 & A2 & E2).
  pose proof (insert_after_uuids c env st uuids _
                (insert_uuids_10 env st ids H)) as I.
  set (st0 := {| store := store st; rand_calls := 10 + rand_calls st;
                 trace := trace st ++ flat_map (uuid_events ids) (seq 0 10) |})
    in I.
  assert (data_apply env (store st0) (insert_m1 uuids) = Ok db1) as A1'
    by (rewrite A; exact A1).
  rewrite (bind_Ret _ _ _ _ _ _ (client_Apply_ok c _ _ _ _ A1')) in I.
  assert (data_apply env db1 (insert_m2 uuids) = Ok db2) as A2'
    by (rewrite A; exact A2).
  cbn beta iota in I.
  rewrite (client_Apply_ok c _ _ _ db2) in I by exact A2'.
  cbn [store rand_calls trace] in I.
  assert (map_to_list (albums db2)
          ≡ₚ reverse (album_entry <$> insert_m2 uuids)) as P.
  { rewrite E2. apply map_to_list_to_map.
    rewrite fmap_reverse, reverse_Permutation, <- list_fmap_compose.
    exact N. }
  eexists _, _.
  edestruct (queryAlbums_fake c env) as (st2 & R); [exact Q| |].
  2: { exists st2. split; [exact I|]. split; [exact R|].
       cbn [store]. rewrite P, reverse_Permutation.
       split; [reflexivity|]. rewrite <- list_fmap_compose. reflexivity. }
  cbn [store]. intros k t L.
  apply elem_of_map_to_list in L. rewrite P in L.
  apply elem_of_reverse, list_elem_of_fmap in L as (m & [= _ ->] & _). eauto.
Qed.

Lemma C2_query_returns_the_seeded_albums_witness :
  exists st1 rows st2,
    insert (DataHandle main_db) (Fake.env test_ids) (initial Fake.empty)
    = (Ret None, st1) /\
    queryAlbums (DataHandle main_db) (Fake.env test_ids) st1
    = (Ret (rows, None), st2) /\
    length rows = 5 /\
    rows ≡ₚ album_of_mutation <$> insert_m2 (test_ids <$> seq 0 10).
Proof.
  apply (C2_query_returns_the_seeded_albums (DataHandle main_db)
           (Fake.env test_ids) (initial Fake.empty) test_ids).
  - reflexivity.
  - reflexivity.
  - intros j _. cbn. rewrite Nat.add_0_r. reflexivity.
  - reflexivity.
  - refine (bool_decide_unpack _ _). vm_compute. exact I.
Defined.

(** C2 as the specification words it fails on tables that an earlier run
    has filled: the seed step succeeds and [queryAlbums] returns six
    records, the five new ones and the old one. *)
Lemma C2_counterexample :
  let env := Fake.env test_ids in
  let c := DataHandle main_db in
  let seeded := insert c env (initial earlier_run) in
  let read := queryAlbums c env (snd seeded) in
  fst seeded = Ret None /\
  exists rows, fst read = Ret (rows, None) /\ length rows = 6 /\
               In {| SingerId := "s0"; AlbumId := "a0";
                     AlbumTitle := "Old Album" |} rows.
Proof.
  vm_compute. split; [reflexivity|]. eexists. split; [reflexivity|].
  split; [reflexivity|]. auto 10.
Qed.

(** * Further properties of the identifier parser *)

Section ParserMore.

#[local] Arguments String.append !s1 s2 : simpl nomatch.

Lemma no_newline_strip (p s r : string) :
  Str.strip_prefix p s = Some r ->
  Str.no_newline s = true -> Str.no_newline r = true.
Proof.
  intros H N. apply strip_prefix_Some in H as ->.
  rewrite no_newline_app in N. apply andb_true_iff in N as [_ N]. exact N.
Qed.

(** On a text without line feed the greedy split fails only when the
    separator does not occur. *)
Lemma split_greedy_none_inv (s : string) :
  Str.no_newline s = true -> split_greedy s = None ->
  Str.contains separator s = false.
Proof.
  induction s as [|c s IH]; intros N H; [reflexivity|].
  cbn [Str.no_newline] in N. apply andb_true_iff in N as [D N].
  cbn [split_greedy] in H. rewrite D in H.
  destruct (split_greedy s) as [[p n]|] eqn:G; [discriminate|].
  cbn [Str.contains]. unfold split_here in H.
  destruct (Str.strip_prefix separator (String c s)) as [r|] eqn:P.
  - assert (Str.no_newline r = true) as Nr.
    { apply (no_newline_strip _ _ _ P). cbn [Str.no_newline].
      rewrite D, N. reflexivity. }
    rewrite Nr in H. discriminate.
  - apply IH; [exact N|reflexivity].
Qed.

(** No separator starts after the one the split has chosen. *)
Lemma split_greedy_is_last (s p n : string) :
  split_greedy s = Some (p, n) ->
  Str.contains separator ("databases/" +:+ n) = false.
Proof.
  revert p. induction s as [|c s IH]; intros p H.
  - discriminate.
  - cbn [split_greedy] in H.
    assert (split_greedy s = None -> split_here (String c s) = Some (p, n) ->
            Str.contains separator ("databases/" +:+ n) = false) as Here.
    { intros G E. destruct (split_here_sound _ _ _ E) as [Es Ns].
      rewrite (split_here_fst _ _ _ E) in Es.
      change ("" +:+ separator +:+ n)
        with (String "/" ("databases/" +:+ n)) in Es.
      injection Es as -> ->. cbn [Str.no_newline] in Ns.
      apply andb_true_iff in Ns as [_ Ns].
      apply split_greedy_none_inv; assumption. }
    destruct (Str.dot c) eqn:D.
    + destruct (split_greedy s) as [[p' n']|] eqn:G.
      * injection H as <- <-. exact (IH _ eq_refl).
      * apply Here; [reflexivity|exact H].
    + destruct (split_here_sound _ _ _ H) as [_ Ns].
      cbn [Str.no_newline] in Ns. rewrite D in Ns. discriminate.
Qed.

(** The parser's result puts the input together again. *)
Lemma identifier_parser_sound (db parent name : string) :
  identifier_parser db = Some (parent, name) ->
  db = parent +:+ separator +:+ name /\ Str.no_newline db = true.
Proof.
  rewrite identifier_parser_split. apply split_greedy_sound.
Qed.

End ParserMore.

(** X1.  Whatever the parser returns puts the input together again: the
    parent, the separator and the name are the input, which then has no
    line feed, and no further separator starts after the parent. *)
Theorem X1_parser_round_trip (db parent name : string) :
  identifier_parser db = Some (parent, name) ->
  db = parent +:+ separator +:+ name /\
  Str.no_newline db = true /\
  Str.contains separator ("databases/" +:+ name) = false.
Proof.
  rewrite identifier_parser_split. intros H.
  destruct (split_greedy_sound _ _ _ H) as [E N].
  split; [exact E|]. split; [exact N|].
  exact (split_greedy_is_last _ _ _ H).
Qed.

Lemma X1_parser_round_trip_witness :
  identifier_parser main_db
  = Some ("projects/create-table-test/instances/test-instance"%string,
          "example-db"%string)
  /\ main_db
     = "projects/create-table-test/instances/test-instance" +:+ separator
       +:+ "example-db".
Proof.
  assert (identifier_parser main_db
          = Some ("projects/create-table-test/instances/test-instance"%string,
                  "example-db"%string)) as H by (vm_compute; reflexivity).
  split; [exact H|]. exact (proj1 (X1_parser_round_trip _ _ _ H)).
Defined.


(** X3.  A match of the pattern always has three elements, the first of
    them the whole input, so the length test in the guard of
    [createDatabase] never decides: the guard fires exactly when there is
    no match. *)
Theorem X3_match_has_three_elements (db : string) :
  let matches := Regexp.FindStringSubmatch database_pattern db in
  (matches = [] \/ exists parent name, matches = [db; parent; name]) /\
  bool_decide (matches = []) || negb (Nat.eqb (length matches) 3)
  = bool_decide (matches = []).
Proof.
  cbv zeta. rewrite FindStringSubmatch_split.
  destruct (split_greedy db) as [[p n]|].
  - split; [right; eauto|reflexivity].
  - split; [left; reflexivity|reflexivity].
Qed.

(** * Further properties of the steps *)

Section StepsMore.

Lemma returns_ret {A} (a : A) : returns (ret a).
Proof. intros env st. eauto. Qed.

Lemma returns_bind {A B} (m : M A) (f : A -> M B) :
  returns m -> (forall a, returns (f a)) -> returns (bind m f).
Proof.
  intros Hm Hf env st. destruct (Hm env st) as (a & st1 & E).
  rewrite (bind_Ret _ _ _ _ _ _ E). apply Hf.
Qed.

Lemma returns_createClients (db : string) : returns (createClients db).
Proof.
  intros env st. rewrite createClients_run.
  destruct (new_admin_client env); [eauto|].
  cbv zeta. destruct (new_client env db); eauto.
Qed.

Lemma returns_Apply (c : SpannerClient) (ms : list Mutation) :
  returns (client_Apply c ms).
Proof.
  intros env st.
  destruct (data_apply env (store (log_event (EvApply ms) st)) ms)
    as [db'|e] eqn:E; cbn [store log_event] in E.
  - rewrite (client_Apply_ok _ _ _ _ _ E). eauto.
  - rewrite (client_Apply_fail _ _ _ _ _ E). eauto.
Qed.

Lemma returns_insert_uuids (n i : nat) (uuids : list string) :
  returns (insert_uuids n i uuids).
Proof.
  revert i uuids. induction n as [|n IH]; intros i uuids env st;
    [cbn; eauto|].
  destruct (new_random env (rand_calls st)) as [u|e] eqn:E.
  - rewrite (insert_uuids_step _ _ _ _ _ _ E). apply IH.
  - rewrite (insert_uuids_fail _ _ _ _ _ _ E). eauto.
Qed.

Lemma returns_insert (c : SpannerClient) : returns (insert c).
Proof.
  unfold insert. apply returns_bind; [apply returns_insert_uuids|].
  intros [uuids|e]; [|apply returns_ret].
  apply returns_bind; [apply returns_Apply|].
  intros [e|]; [apply returns_ret|apply returns_Apply].
Qed.

Lemma returns_queryAlbums (c : SpannerClient) : returns (queryAlbums c).
Proof.
  intros env st.
  destruct (loop_returns (data_query env (store st) query_sql) [] env
              (log_events [EvQuery query_sql] st)) as (r & evs & E & _).
  rewrite (queryAlbums_run _ _ _ _ _ E). eauto.
Qed.

(** [createDatabase] on a target the parser accepts, case by case. *)
Lemma createDatabase_run (c : DatabaseAdminClient) (db parent name : string)
    env st :
  identifier_parser db = Some (parent, name) ->
  createDatabase c db env st =
  let req := request_for parent name in
  match create_database env req with
  | Some e => (Ret (Some e), log_events [EvCreateDatabase req] st)
  | None =>
      match wait env with
      | Some e => (Ret (Some e), log_events [EvCreateDatabase req; EvWait] st)
      | None =>
          (Ret None,
           log_events
             [EvCreateDatabase req; EvWait;
              EvInfo "Created database" [zap_String "db" db]] st)
      end
  end.
Proof.
  intros H. rewrite (createDatabase_valid _ _ _ _ H).
  fold (request_for parent name). cbv zeta.
  unfold admin_CreateDatabase, op_Wait, logger_Info, bind, emit, ret.
  unfold log_event, log_events. cbn [store rand_calls trace].
  destruct (create_database env (request_for parent name)); [reflexivity|].
  destruct (wait env); cbn [store rand_calls trace];
    rewrite <- ?app_assoc; reflexivity.
Qed.

Lemma returns_createDatabase (c : DatabaseAdminClient) (db : string) :
  returns (createDatabase c db).
Proof.
  intros env st. destruct (identifier_parser db) as [[p n]|] eqn:E.
  - rewrite (createDatabase_run _ _ _ _ _ _ E). cbv zeta.
    destruct (create_database env _); [eauto|]. destruct (wait env); eauto.
  - rewrite (createDatabase_invalid _ _ _ _ E). eauto.
Qed.

End StepsMore.

(** X4.  On a target the parser accepts, [createDatabase] sends one
    request, built from the two groups (which put the target together
    again), and returns the first error met: that of the request, without
    waiting, or else that of the wait.  It waits exactly when the request
    was accepted and logs "Created database" exactly when it returns nil. *)
Theorem X4_createDatabase_first_error
    (c : DatabaseAdminClient) (db parent name : string) (env : Env)
    (st : State) :
  identifier_parser db = Some (parent, name) ->
  let req := request_for parent name in
  let r := createDatabase c db env st in
  Parent req +:+ separator +:+ name = db /\
  fst r = Ret match create_database env req with
              | Some e => Some e
              | None => wait env
              end /\
  exists evs,
    snd r = log_events (EvCreateDatabase req :: evs) st /\
    free_of is_create_database evs /\
    (In EvWait evs <-> create_database env req = None) /\
    (In (EvInfo "Created database" [zap_String "db" db]) evs
     <-> fst r = Ret None).
Proof.
  intros H req r. subst r.
  split; [symmetry; exact (proj1 (identifier_parser_sound db parent name H))|].
  rewrite (createDatabase_run _ _ _ _ _ _ H). cbv zeta. fold req.
  destruct (create_database env req) as [e|].
  - split; [reflexivity|]. exists []. split; [reflexivity|].
    split; [constructor|]. split; split; try discriminate; intros [].
  - destruct (wait env) as [e|].
    + split; [reflexivity|]. exists [EvWait]. split; [reflexivity|].
      split; [repeat constructor|]. split; split; try discriminate; auto.
      * left. reflexivity.
      * intros [I|[]]. discriminate.
    + split; [reflexivity|]. eexists [EvWait; _]. split; [reflexivity|].
      split; [repeat constructor|]. split; split; auto.
      * intros _. left. reflexivity.
      * intros _. right. left. reflexivity.
Qed.

Lemma X4_createDatabase_first_error_witness :
  let r := createDatabase AdminHandle main_db wait_fails_env
             (initial Fake.empty) in
  fst r = Ret (Some (StatusErr DeadlineExceeded "operation timed out")).
Proof.
  assert (identifier_parser main_db
          = Some ("projects/create-table-test/instances/test-instance"%string,
                  "example-db"%string)) as H by (vm_compute; reflexivity).
  exact (proj1 (proj2 (X4_createDatabase_first_error AdminHandle main_db _ _
                         wait_fails_env (initial Fake.empty) H))).
Defined.

(** * Further properties of the seed loader *)

Section SeedMore.

(** How many calls and log entries the identifier loop has made when it
    comes back. *)
Lemma insert_uuids_counts (n i : nat) (uuids : list string) env st :
  exists r st1 evs,
    insert_uuids n i uuids env st = (Ret r, st1) /\
    trace st1 = trace st ++ evs /\
    match r with
    | Ok _ => count is_new_random evs = n /\ count is_uuid_log evs = n
    | Fail _ => count is_uuid_log evs < n /\
                count is_new_random evs = S (count is_uuid_log evs)
    end.
Proof.
  revert i uuids st. induction n as [|n IH]; intros i uuids st.
  - exists (Ok uuids), st, []. rewrite app_nil_r. repeat split.
  - destruct (new_random env (rand_calls st)) as [u|e] eqn:E.
    + rewrite (insert_uuids_step _ _ _ _ _ _ E).
      edestruct IH as (r & st1 & evs & R & T & C).
      exists r, st1. eexists. split; [exact R|].
      split; [rewrite T; cbn [trace]; rewrite <- app_assoc; reflexivity|].
      rewrite !count_app.
      change (count is_new_random [EvNewRandom; _]) with 1.
      change (count is_uuid_log [EvNewRandom; _]) with 1.
      destruct r as [x|x]; destruct C as [C1 C2]; split; lia.
    + rewrite (insert_uuids_fail _ _ _ _ _ _ E).
      eexists (Fail e), _, [EvNewRandom]. repeat split.
      change (count is_uuid_log [EvNewRandom]) with 0. lia.
Qed.

End SeedMore.

(** X5.  The two batches are two transactions: when the first has been
    applied and the second fails, [insert] returns the error of the second
    and the tables are those the first batch left, the parent rows written
    and no child row with them. *)
Theorem X5_second_batch_failure_keeps_first_batch
    (c : SpannerClient) (env : Env) (st st1 : State) (uuids : list string)
    (db1 : Store) (e : error) :
  insert_uuids 10 0 (replicate 10 EmptyString) env st = (Ret (Ok uuids), st1) ->
  data_apply env (store st1) (insert_m1 uuids) = Ok db1 ->
  data_apply env db1 (insert_m2 uuids) = Fail e ->
  let r := insert c env st in
  fst r = Ret (Some e) /\
  store (snd r) = db1 /\
  trace (snd r)
  = trace st1 ++ [EvApply (insert_m1 uuids); EvApply (insert_m2 uuids)].
Proof.
  intros H1 H2 H3 r. subst r.
  rewrite (insert_after_uuids _ _ _ _ _ H1).
  rewrite (bind_Ret _ _ _ _ _ _ (client_Apply_ok c _ _ _ _ H2)).
  cbn beta iota.
  rewrite (client_Apply_fail c _ _ _ e) by exact H3.
  cbn [fst snd store trace log_event]. rewrite <- app_assoc.
  repeat split.
Qed.

Lemma X5_second_batch_failure_keeps_first_batch_witness :
  let r := insert (DataHandle main_db) albums_fail_env (initial Fake.empty) in
  fst r = Ret (Some (StatusErr Aborted "transaction aborted")) /\
  albums (store (snd r)) = ∅ /\
  singers (store (snd r)) !! "a"%string
  = Some ("Marc"%string, "Richards"%string).
Proof.
  assert (forall j, j < 10 ->
             new_random albums_fail_env (j + rand_calls (initial Fake.empty))
             = Ok (test_ids j)) as H0
    by (intros j _; cbn; rewrite Nat.add_0_r; reflexivity).
  pose proof (insert_uuids_10 albums_fail_env (initial Fake.empty) test_ids H0)
    as H1.
  destruct (apply_both Fake.empty (test_ids <$> seq 0 10) eq_refl)
    as (db1 & db2 & A1 & _ & _).
  assert (Fake.apply Fake.empty (insert_m1 (test_ids <$> seq 0 10))
          = Ok {| singers :=
                    list_to_map
                      [("a", ("Marc", "Richards"));
                       ("b", ("Catalina", "Smith"));
                       ("c", ("Alice", "Trentor")); ("d", ("Lea", "Martin"));
                       ("e", ("David", "Lomond"))]%string;
                  albums := ∅ |}) as A by (vm_compute; reflexivity).
  destruct (X5_second_batch_failure_keeps_first_batch (DataHandle main_db)
              albums_fail_env _ _ _ _
              (StatusErr Aborted "transaction aborted") H1 A eq_refl)
    as (R & S & _).
  split; [exact R|]. rewrite S. split; vm_compute; reflexivity.
Defined.

(** X6.  When a call of [NewRandom] fails, [insert] returns that error at
    once: it has logged fewer than ten identifiers, made exactly one call
    more than it logged, applied no batch and left the tables alone. *)
Theorem X6_random_failure_stops_the_seed
    (c : SpannerClient) (env : Env) (st st1 : State) (e : error) :
  insert_uuids 10 0 (replicate 10 EmptyString) env st = (Ret (Fail e), st1) ->
  insert c env st = (Ret (Some e), st1) /\
  store st1 = store st /\
  exists evs,
    trace st1 = trace st ++ evs /\
    count is_apply evs = 0 /\
    count is_uuid_log evs < 10 /\
    count is_new_random evs = S (count is_uuid_log evs).
Proof.
  intros H.
  split; [unfold insert; rewrite (bind_Ret _ _ _ _ _ _ H); reflexivity|].
  destruct (insert_uuids_frame 10 0 (replicate 10 EmptyString) env st)
    as (Hs & evs & Ht & F).
  rewrite H in Hs, Ht. cbn [snd] in Hs, Ht. split; [exact Hs|].
  destruct (insert_uuids_counts 10 0 (replicate 10 EmptyString) env st)
    as (r & st1' & evs' & R & T & C).
  rewrite H in R. injection R as <- <-.
  rewrite Ht in T. apply app_inv_head in T as <-.
  exists evs. split; [exact Ht|]. split; [apply count_free, F|]. exact C.
Qed.

Lemma X6_random_failure_stops_the_seed_witness :
  insert (DataHandle main_db) no_entropy_env (initial Fake.empty)
  = (Ret (Some (Errorf "crypto/rand: no entropy")),
     {| store := Fake.empty; rand_calls := 1; trace := [EvNewRandom] |}).
Proof.
  refine (proj1 (X6_random_failure_stops_the_seed (DataHandle main_db)
                   no_entropy_env (initial Fake.empty) _ _ _)).
  reflexivity.
Defined.

(** X7.  Only [main] ends the process: [createClients], [createDatabase],
    [insert], [queryAlbums] and [Close] always come back to their caller,
    whatever the libraries answer, and none of them writes a fatal log
    entry. *)
Theorem X7_steps_return_to_their_caller
    (db : string) (a : DatabaseAdminClient) (c : SpannerClient)
    (cl : Client) :
  (returns (createClients db) /\ quiet is_fatal (createClients db)) /\
  (returns (createDatabase a db) /\ quiet is_fatal (createDatabase a db)) /\
  (returns (insert c) /\ quiet is_fatal (insert c)) /\
  (returns (queryAlbums c) /\ quiet is_fatal (queryAlbums c)) /\
  (returns (Client_Close cl) /\ quiet is_fatal (Client_Close cl)).
Proof.
  repeat split.
  - apply returns_createClients.
  - apply quiet_createClients; intros; reflexivity.
  - apply returns_createDatabase.
  - apply quiet_createDatabase; intros; reflexivity.
  - apply returns_insert.
  - apply quiet_insert; intros; reflexivity.
  - apply returns_queryAlbums.
  - apply quiet_queryAlbums; intros; reflexivity.
  - intros env st. eexists _, _. reflexivity.
  - unfold Client_Close.
    apply quiet_defer; [apply quiet_emit; reflexivity|].
    apply quiet_defer; [apply quiet_emit; reflexivity|apply quiet_ret].
Qed.

(** * Further properties of the row reader and of [main] *)

Section MainMore.

Lemma log_rows_run (albums : list Album) env st :
  log_rows albums env st = (Ret tt, log_events (row_event <$> albums) st).
Proof.
  revert st. induction albums as [|a rest IH]; intros st.
  - cbn. rewrite log_events_nil. reflexivity.
  - cbn [log_rows]. unfold bind, log_row, logger_Info, emit.
    rewrite IH. fold (row_event a).
    change (log_event (row_event a) st) with (log_events [row_event a] st).
    rewrite log_events_app. reflexivity.
Qed.

Lemma count_read_events (n : nat) :
  count is_next (read_events n) = n /\ free_of is_query (read_events n).
Proof.
  unfold read_events.
  induction n as [|n [IH1 IH2]]; [split; [reflexivity|constructor]|].
  cbn [replicate concat]. split.
  - rewrite count_app, IH1. reflexivity.
  - apply free_of_app; [repeat constructor|exact IH2].
Qed.

Lemma exits_of_returns {A} (m : M A) : returns m -> exits_by_fatal m.
Proof.
  intros H env st c st' E. destruct (H env st) as (a & st1 & R).
  rewrite R in E. discriminate.
Qed.

Lemma exits_Fatal {A} (msg : string) (fields : list Field) :
  exits_by_fatal (@logger_Fatal A msg fields).
Proof.
  intros env st c st' E. unfold logger_Fatal, bind, emit in E.
  injection E as <- <-. split; [reflexivity|].
  exists msg, fields. apply last_snoc.
Qed.

Lemma exits_bind {A B} (m : M A) (f : A -> M B) :
  exits_by_fatal m -> (forall a, exits_by_fatal (f a)) ->
  exits_by_fatal (bind m f).
Proof.
  intros Hm Hf env st c st' E. unfold bind in E.
  destruct (m env st) as [[a|c'] st1] eqn:R.
  - exact (Hf a env st1 c st' E).
  - injection E as <- <-. exact (Hm env st c' st1 R).
Qed.

Lemma returns_log_rows (albums : list Album) : returns (log_rows albums).
Proof. intros env st. rewrite log_rows_run. eauto. Qed.

Lemma exits_main_body (db : string) : exits_by_fatal (main_body db).
Proof.
  unfold main_body. apply exits_bind.
  { apply exits_of_returns, returns_createClients. }
  intros [c|e]; [|apply exits_Fatal].
  unfold main_provision. apply exits_bind.
  { apply exits_of_returns, returns_createDatabase. }
  intros err. apply exits_bind.
  { destruct err as [e|]; [|apply exits_of_returns, returns_ret].
    destruct (bool_decide _);
      [apply exits_Fatal|apply exits_of_returns, returns_ret]. }
  intros _. unfold main_seed. apply exits_bind.
  { apply exits_of_returns, returns_insert. }
  intros err'. apply exits_bind.
  { destruct err' as [e|];
      [apply exits_Fatal|apply exits_of_returns, returns_ret]. }
  intros _. unfold main_read. apply exits_bind.
  { apply exits_of_returns, returns_queryAlbums. }
  intros [albums [e|]].
  - apply exits_bind; [apply exits_Fatal|].
    intros _. apply exits_of_returns, returns_log_rows.
  - apply exits_bind; [apply exits_of_returns, returns_ret|].
    intros _. apply exits_of_returns, returns_log_rows.
Qed.

(** Under [main]'s defer nothing touches the handles' [Close] or the
    logger's [Sync]. *)
Context (p : event -> bool)
        (Hp : forall e, is_close e = false -> is_sync e = false -> p e = false).

Lemma quiet_main_body (db : string) : quiet p (main_body db).
Proof using Hp.
  assert (forall e, is_close e = false -> is_sync e = false -> p e = false)
    as H by exact Hp.
  unfold main_body. apply quiet_bind.
  { apply quiet_createClients; intros; apply H; reflexivity. }
  intros [c|e]; [|apply quiet_Fatal; intros; apply H; reflexivity].
  unfold main_provision. apply quiet_bind.
  { apply quiet_createDatabase; intros; apply H; reflexivity. }
  intros err. apply quiet_bind.
  { destruct err as [e|]; [|apply quiet_ret].
    destruct (bool_decide _); [|apply quiet_ret].
    apply quiet_Fatal; intros; apply H; reflexivity. }
  intros _. unfold main_seed. apply quiet_bind.
  { apply quiet_insert; intros; apply H; reflexivity. }
  intros err'. apply quiet_bind.
  { destruct err' as [e|]; [|apply quiet_ret].
    apply quiet_Fatal; intros; apply H; reflexivity. }
  intros _. unfold main_read. apply quiet_bind.
  { apply quiet_queryAlbums; intros; apply H; reflexivity. }
  intros [albums [e|]].
  - apply quiet_bind;
      [apply quiet_Fatal; intros; apply H; reflexivity|].
    intros _. apply quiet_log_rows; intros; apply H; reflexivity.
  - apply quiet_bind; [apply quiet_ret|].
    intros _. apply quiet_log_rows; intros; apply H; reflexivity.
Qed.

End MainMore.

(** X8.  After the read, [main] writes one "row" entry for each album
    that [queryAlbums] returned, in the order returned, and nothing else;
    when [queryAlbums] returned an error it writes no row but the fatal
    entry "query records" with that error, and the process exits with
    status 1. *)
Theorem X8_one_log_entry_per_album
    (db : string) (c : Client) (env : Env) (st st1 : State)
    (albums : list Album) (err : option error) :
  queryAlbums (client c) env st = (Ret (albums, err), st1) ->
  main_read db c env st
  = match err with
    | None => (Ret tt, log_events (row_event <$> albums) st1)
    | Some e =>
        (Exit 1,
         log_event (EvFatal "query records" [zap_String "db" db; zap_Error e])
           st1)
    end.
Proof.
  intros H. unfold main_read. rewrite (bind_Ret _ _ _ _ _ _ H).
  destruct err as [e|]; [reflexivity|].
  unfold bind at 1. cbn [ret]. apply log_rows_run.
Qed.

Lemma X8_one_log_entry_per_album_witness :
  let c := {| admin := AdminHandle; client := DataHandle main_db |} in
  events (main_read main_db c (Fake.env test_ids) (initial earlier_run))
  = [EvQuery query_sql; EvNext; EvColumns; EvNext; EvStop;
     row_event {| SingerId := "s0"; AlbumId := "a0";
                  AlbumTitle := "Old Album" |}]
  /\ fst (main_read main_db c broken_read_env (initial Fake.empty)) = Exit 1.
Proof.
  intros c. split.
  - assert (queryAlbums (client c) (Fake.env test_ids) (initial earlier_run)
            = (Ret ([{| SingerId := "s0"; AlbumId := "a0";
                        AlbumTitle := "Old Album" |}], None),
               log_events [EvQuery query_sql; EvNext; EvColumns; EvNext; EvStop]
                 (initial earlier_run))) as H by (vm_compute; reflexivity).
    unfold events.
    rewrite (X8_one_log_entry_per_album main_db c _ _ _ _ _ H). reflexivity.
  - assert (queryAlbums (client c) broken_read_env (initial Fake.empty)
            = (Ret ([], Some (StatusErr Unavailable "stream broken")),
               log_events [EvQuery query_sql; EvNext; EvColumns; EvNext; EvStop]
                 (initial Fake.empty))) as H by (vm_compute; reflexivity).
    rewrite (X8_one_log_entry_per_album main_db c _ _ _ _ _ H). reflexivity.
Defined.

(** X9.  However a run of [main] goes, it ends in one of two ways: it
    returns, and then the deferred [logger.Sync] has run once, as the last
    thing; or the process exits with status 1 right after a fatal log
    entry, and then [logger.Sync] has not run at all. *)
Theorem X9_main_returns_synced_or_exits_fatally
    (db : string) (env : Env) (s : Store) :
  let r := run (main_with db) env s in
  (fst r = Ret tt /\ last (events r) = Some EvSync /\
   count is_sync (events r) = 1)
  \/
  (fst r = Exit 1 /\
   (exists msg fields, last (events r) = Some (EvFatal msg fields)) /\
   count is_sync (events r) = 0).
Proof.
  intros r. subst r. unfold run, events.
  assert (main_with db env (initial s)
          = match main_body db env (initial s) with
            | (Ret a, st1) => (Ret a, log_event EvSync st1)
            | (Exit c, st1) => (Exit c, st1)
            end) as E.
  { change (main_with db) with (defer logger_Sync (main_body db)).
    unfold defer, bind. destruct (main_body db env (initial s)) as [[a|c] st1];
      reflexivity. }
  rewrite E. clear E.
  destruct (quiet_main_body is_sync (fun e _ H => H) db env (initial s))
    as (evs & T & F).
  pose proof (exits_main_body db env (initial s)) as X.
  destruct (main_body db env (initial s)) as [[[]|c] st1].
  - left. cbn [fst snd log_event trace] in *. rewrite T.
    cbn [initial trace app].
    split; [reflexivity|]. split; [apply last_snoc|].
    rewrite count_app, (count_free _ _ F). reflexivity.
  - right. cbn [fst snd] in *. destruct (X c st1 eq_refl) as (-> & L).
    split; [reflexivity|]. split; [exact L|].
    rewrite T. cbn [initial trace app]. apply count_free, F.
Qed.

(** X10.  [queryAlbums] stops reading at the first thing that is not a
    row it can decode.  With [n] such rows in front of an error, of the
    end, or of a row that does not decode, it sends the one query, calls
    [Next] exactly [n + 1] times and [Stop] once, whatever the iterator
    still holds behind that point; the tables are unchanged. *)
Theorem X10_read_stops_at_first_error
    (c : SpannerClient) (env : Env) (st : State)
    (ts : list (string * string * string)) (rest : RowIterator) :
  data_query env (store st) query_sql = (full_row <$> ts) ++ rest ->
  let st' := snd (queryAlbums c env st) in
  let sent tail := [EvQuery query_sql] ++ read_events (length ts) ++ tail in
  (rest = [] \/ (exists e rest', rest = Fail e :: rest') ->
   st' = log_events (sent [EvNext; EvStop]) st /\
   count is_next (sent [EvNext; EvStop]) = S (length ts))
  /\
  (forall row e rest',
      rest = Ok row :: rest' -> decode3 row = Fail e ->
      st' = log_events (sent [EvNext; EvColumns; EvStop]) st /\
      count is_next (sent [EvNext; EvColumns; EvStop]) = S (length ts)).
Proof.
  intros Q st' sent. subst st' sent. cbv beta.
  assert (forall tail,
             count is_next tail = 1 ->
             count is_next
               ([EvQuery query_sql] ++ read_events (length ts) ++ tail)
             = S (length ts)) as Cn.
  { intros tail Ct.
    rewrite !count_app, Ct, (proj1 (count_read_events _)).
    change (count is_next [EvQuery query_sql]) with 0. lia. }
  assert (forall r evs,
             queryAlbums_loop rest (album_of <$> ts) env
               (log_events (read_events (length ts))
                  (log_events [EvQuery query_sql] st))
             = (Ret r,
                log_events evs
                  (log_events (read_events (length ts))
                     (log_events [EvQuery query_sql] st))) ->
             snd (queryAlbums c env st)
             = log_events
                 ([EvQuery query_sql] ++ read_events (length ts)
                  ++ evs ++ [EvStop]) st) as Run.
  { intros r evs L. erewrite queryAlbums_run.
    2: { rewrite Q, loop_rows. cbn [app]. exact L. }
    cbn [snd]. rewrite !log_events_app. reflexivity. }
  split.
  - intros H. split; [|apply Cn; reflexivity].
    destruct H as [->|(e & rest' & ->)].
    + eapply (Run _ [EvNext]), loop_done. left. reflexivity.
    + destruct (decide (e = IteratorDone)) as [->|Ne].
      * eapply (Run _ [EvNext]), loop_done. right. eauto.
      * eapply (Run _ [EvNext]), loop_error, Ne.
  - intros row e rest' -> D. split; [|apply Cn; reflexivity].
    eapply (Run _ [EvNext; EvColumns]), loop_bad_row, D.
Qed.

Lemma X10_read_stops_at_first_error_witness :
  snd (queryAlbums (DataHandle main_db) broken_read_env (initial Fake.empty))
  = log_events [EvQuery query_sql; EvNext; EvColumns; EvNext; EvStop]
      (initial Fake.empty).
Proof.
  refine (proj1 (proj1 (X10_read_stops_at_first_error (DataHandle main_db)
                   broken_read_env (initial Fake.empty)
                   [("s"%string, "a"%string, "t"%string)]
                   [Fail (StatusErr Unavailable "stream broken");
                    full_row ("s"%string, "b"%string, "u"%string)]
                   eq_refl) _)).
  right. eauto.
Defined.

(** * The order of the steps of [main] *)

Section Order.









End Order.


(** * The seed on tables that hold rows already *)

Section Frame.

Context {K V : Type} `{Countable K}.

(** A run of writes by key: the other keys keep their rows, and a written
    key holds a row of one of its writes. *)
Lemma lookup_foldl_insert (l : list (K * V)) (m : gmap K V) (k : K) :
  let m' := foldl (fun acc kv => <[kv.1 := kv.2]> acc) m l in
  (k ∉ l.*1 -> m' !! k = m !! k) /\
  (k ∈ l.*1 -> exists v, (k, v) ∈ l /\ m' !! k = Some v).
Proof.
  cbv zeta. revert m. induction l as [|[k0 v0] l IH]; intros m.
  - split; [reflexivity|]. intros I. inversion I.
  - cbn [foldl fmap list_fmap fst snd].
    destruct (IH (<[k0 := v0]> m)) as [IH1 IH2]. split.
    + intros N. apply not_elem_of_cons in N as [N1 N2].
      rewrite (IH1 N2). apply lookup_insert_ne. congruence.
    + intros I. destruct (decide (k ∈ l.*1)) as [Y|N].
      * destruct (IH2 Y) as (v & Iv & L). exists v.
        split; [right; exact Iv|exact L].
      * apply elem_of_cons in I as [->|I]; [|contradiction].
        exists v0. split; [left|]. rewrite (IH1 N). apply lookup_insert_eq.
Qed.

End Frame.

Section SeedFrame.

(** The two batches on any tables: the parent rows go in first, so every
    child row finds its parent. *)
Lemma apply_both_any (db : Store) (uuids : list string) :
  exists db1 db2,
    Fake.apply db (insert_m1 uuids) = Ok db1 /\
    Fake.apply db1 (insert_m2 uuids) = Ok db2 /\
    albums db2
    = foldl (fun acc kv => <[kv.1 := kv.2]> acc) (albums db)
        (album_entry <$> insert_m2 uuids) /\
    singers db2
    = foldl (fun acc kv => <[kv.1 := kv.2]> acc) (singers db)
        ((fun j => (at_index uuids j, default (EmptyString, EmptyString)
                                         (singer_names !! j))) <$> seq 0 5).
Proof.
  eexists _, _. split; [|split; [|split]].
  - unfold insert_m1. cbn [Fake.apply]. rewrite !apply_one_singer.
    reflexivity.
  - unfold insert_m2. cbn [Fake.apply singers albums].
    repeat (rewrite apply_one_album;
            [|cbn [singers]; rewrite !lookup_insert_is_Some'; auto 10]).
    reflexivity.
  - reflexivity.
  - reflexivity.
Qed.

End SeedFrame.

(** X12.  On the in-memory data plane the seed needs nothing of the
    tables it finds: with a random source that answers it succeeds on any
    tables, because the first batch writes the parent of every child row
    of the second.  It leaves every album whose key is not one of the five
    new keys, and every singer whose key is not one of the first five
    identifiers, as it was; and each of the five new keys then holds the
    title of a row of the second batch with that key. *)
Theorem X12_seed_keeps_the_other_rows
    (c : SpannerClient) (env : Env) (st : State) (ids : nat -> string) :
  data_apply env = Fake.apply ->
  (forall j, j < 10 -> new_random env (j + rand_calls st) = Ok (ids j)) ->
  exists st1,
    insert c env st = (Ret None, st1) /\
    (forall k, k ∉ album_key <$> insert_m2 (ids <$> seq 0 10) ->
               albums (store st1) !! k = albums (store st) !! k) /\
    (forall k, k ∈ album_key <$> insert_m2 (ids <$> seq 0 10) ->
               exists m, m ∈ insert_m2 (ids <$> seq 0 10) /\
                         album_key m = k /\
                         albums (store st1) !! k
                         = Some (Some (AlbumTitle (album_of_mutation m)))) /\
    (forall sid, sid ∉ ids <$> seq 0 5 ->
                 singers (store st1) !! sid = singers (store st) !! sid).
Proof.
  intros A Hr.
  set (uuids := ids <$> seq 0 10) in *.
  destruct (apply_both_any (store st) uuids)
    as (db1 & db2 & A1 & A2 & Ea & Es).
  pose proof (insert_after_uuids c env st uuids _
                (insert_uuids_10 env st ids Hr)) as I.
  set (st0 := {| store := store st; rand_calls := 10 + rand_calls st;
                 trace := trace st ++ flat_map (uuid_events ids) (seq 0 10) |})
    in I.
  assert (data_apply env (store st0) (insert_m1 uuids) = Ok db1) as A1'
    by (rewrite A; exact A1).
  rewrite (bind_Ret _ _ _ _ _ _ (client_Apply_ok c _ _ _ _ A1')) in I.
  assert (data_apply env db1 (insert_m2 uuids) = Ok db2) as A2'
    by (rewrite A; exact A2).
  cbn beta iota in I.
  rewrite (client_Apply_ok c _ _ _ db2) in I by exact A2'.
  eexists. split; [exact I|]. cbn [store]. rewrite Ea, Es.
  split; [|split].
  - intros k N.
    apply (lookup_foldl_insert (album_entry <$> insert_m2 uuids)).
    exact N.
  - intros k Y.
    destruct (lookup_foldl_insert (album_entry <$> insert_m2 uuids)
                (albums (store st)) k) as [_ Hk].
    destruct Hk as (v & Iv & L); [exact Y|].
    apply list_elem_of_fmap in Iv as (m & [= Ek ->] & Im).
    exists m. split; [exact Im|]. split; [symmetry; exact Ek|exact L].
  - intros sid N.
    apply (lookup_foldl_insert
             ((fun j => (at_index uuids j,
                         default (EmptyString, EmptyString)
                           (singer_names !! j))) <$> seq 0 5)).
    exact N.
Qed.

Lemma X12_seed_keeps_the_other_rows_witness :
  exists st1,
    insert (DataHandle main_db) (Fake.env test_ids) (initial earlier_run)
    = (Ret None, st1) /\
    albums (store st1) !! ("s0"%string, "a0"%string)
    = Some (Some "Old Album"%string).
Proof.
  destruct (X12_seed_keeps_the_other_rows (DataHandle main_db)
              (Fake.env test_ids) (initial earlier_run) test_ids eq_refl)
    as (st1 & I & F & _).
  { intros j _. cbn. rewrite Nat.add_0_r. reflexivity. }
  exists st1. split; [exact I|]. rewrite F; [reflexivity|].
  refine (bool_decide_unpack _ _). vm_compute. exact Logic.I.
Defined.
